(** * procfs: the /proc/[pid]/status parser and the nfsd statistics records

    A shallow embedding of [proc_status.go] (the [ProcStatus] record, the
    scanner table of [newProcStatusBuilder], [readStatus], [NewStatus]) and
    of the record declarations of [nfsd.go].

    [readStatus] rests on two routines of the Go standard library,
    [bufio.Reader.ReadString] and [fmt.Sscanf].  They are modelled here
    after package [bufio] and package [fmt] (file scan.go: [doScanf],
    [advance], [SkipSpace], [scanInt], [scanNumber]) for the fragment the
    scanner table uses: literal text, white space and the verb [%d] storing
    through an [*int].  Text is a list of runes, i.e. the input after UTF-8
    decoding. *)

From Stdlib Require Import String Ascii List ZArith NArith Bool Lia.
Import ListNotations.

Local Open Scope Z_scope.

(** ** Runes and text *)

Definition rune := N.

Definition text := list rune.

Definition runes (s : string) : text := map N_of_ascii (list_ascii_of_string s).

Definition LF : rune := 10%N.
Definition CR : rune := 13%N.
Definition PERCENT : rune := 37%N.
Definition PLUS : rune := 43%N.
Definition MINUS : rune := 45%N.
Definition VERB_d : rune := 100%N.

(** [isSpace] of fmt: the table [space] of scan.go, for runes below 1<<16. *)
Definition space : list (N * N) :=
  [ (0x0009, 0x000d); (0x0020, 0x0020); (0x0085, 0x0085); (0x00a0, 0x00a0);
    (0x1680, 0x1680); (0x2000, 0x200a); (0x2028, 0x2029); (0x202f, 0x202f);
    (0x205f, 0x205f); (0x3000, 0x3000) ]%N.

Definition isSpace (r : rune) : bool :=
  (r <? 0x10000)%N
  && existsb (fun rng => (fst rng <=? r)%N && (r <=? snd rng)%N) space.

(** A blank is white space other than the newline. *)
Definition isBlank (r : rune) : bool := isSpace r && negb (r =? LF)%N.

Definition isDigit (r : rune) : bool := (48 <=? r)%N && (r <=? 57)%N.

Definition isSign (r : rune) : bool := (r =? PLUS)%N || (r =? MINUS)%N.

(** ** Errors *)

Inductive error : Type :=
| EOF                       (* io.EOF *)
| ErrUnexpectedEOF          (* io.ErrUnexpectedEOF *)
| ErrIO (msg : string)      (* any other error of the underlying file *)
| ErrScan (msg : string)    (* errors.New(msg) raised by fmt's scanner *)
| ErrRange                  (* strconv.NumError with Err = ErrRange *)
| ErrSyntax.                (* strconv.NumError with Err = ErrSyntax *)

(** ** The record of proc_status.go *)

Record ProcStatus : Type := mkProcStatus {
  TID : Z;
  TracerPid : Z;
  UIDReal : Z;
  UIDEffective : Z;
  UIDSavedSet : Z;
  UIDFileSystem : Z;
  GIDReal : Z;
  GIDEffective : Z;
  GIDSavedSet : Z;
  GIDFileSystem : Z;
  FDSize : Z;
  VmPeakKB : Z;
  VmSizeKB : Z;
  VmLckKB : Z;
  VmHWMKB : Z;
  VmRSSKB : Z;
  VmDataKB : Z;
  VmStkKB : Z;
  VmExeKB : Z;
  VmLibKB : Z;
  VmPTEKB : Z;
  VmSwapKB : Z;
  VoluntaryCtxtSwitches : Z;
  NonvoluntaryCtxtSwitches : Z
}.

(** [ProcStatus{}], the zero value. *)
Definition ProcStatusZero : ProcStatus :=
  mkProcStatus 0 0 0 0 0 0 0 0 0 0 0 0 0 0 0 0 0 0 0 0 0 0 0 0.

(** The pointers [&b.ps.X] held in the [args] of a scanner: one name per
    field of the builder's record. *)
Inductive field : Type :=
| pTID | pTracerPid
| pUIDReal | pUIDEffective | pUIDSavedSet | pUIDFileSystem
| pGIDReal | pGIDEffective | pGIDSavedSet | pGIDFileSystem
| pFDSize
| pVmPeakKB | pVmSizeKB | pVmLckKB | pVmHWMKB | pVmRSSKB | pVmDataKB
| pVmStkKB | pVmExeKB | pVmLibKB | pVmPTEKB | pVmSwapKB
| pVoluntaryCtxtSwitches | pNonvoluntaryCtxtSwitches.

Definition field_eq_dec (p q : field) : {p = q} + {p <> q}.
Proof. decide equality. Defined.

Definition field_eqb (p q : field) : bool :=
  if field_eq_dec p q then true else false.

(** Reading through a pointer. *)
Definition load (p : field) (ps : ProcStatus) : Z :=
  match p with
  | pTID => TID ps | pTracerPid => TracerPid ps
  | pUIDReal => UIDReal ps | pUIDEffective => UIDEffective ps
  | pUIDSavedSet => UIDSavedSet ps | pUIDFileSystem => UIDFileSystem ps
  | pGIDReal => GIDReal ps | pGIDEffective => GIDEffective ps
  | pGIDSavedSet => GIDSavedSet ps | pGIDFileSystem => GIDFileSystem ps
  | pFDSize => FDSize ps
  | pVmPeakKB => VmPeakKB ps | pVmSizeKB => VmSizeKB ps
  | pVmLckKB => VmLckKB ps | pVmHWMKB => VmHWMKB ps
  | pVmRSSKB => VmRSSKB ps | pVmDataKB => VmDataKB ps
  | pVmStkKB => VmStkKB ps | pVmExeKB => VmExeKB ps
  | pVmLibKB => VmLibKB ps | pVmPTEKB => VmPTEKB ps
  | pVmSwapKB => VmSwapKB ps
  | pVoluntaryCtxtSwitches => VoluntaryCtxtSwitches ps
  | pNonvoluntaryCtxtSwitches => NonvoluntaryCtxtSwitches ps
  end.

(** Writing through a pointer: [*p = v]. *)
Definition store (p : field) (v : Z) (ps : ProcStatus) : ProcStatus :=
  let get q := if field_eqb p q then v else load q ps in
  {| TID := get pTID; TracerPid := get pTracerPid;
     UIDReal := get pUIDReal; UIDEffective := get pUIDEffective;
     UIDSavedSet := get pUIDSavedSet; UIDFileSystem := get pUIDFileSystem;
     GIDReal := get pGIDReal; GIDEffective := get pGIDEffective;
     GIDSavedSet := get pGIDSavedSet; GIDFileSystem := get pGIDFileSystem;
     FDSize := get pFDSize;
     VmPeakKB := get pVmPeakKB; VmSizeKB := get pVmSizeKB;
     VmLckKB := get pVmLckKB; VmHWMKB := get pVmHWMKB;
     VmRSSKB := get pVmRSSKB; VmDataKB := get pVmDataKB;
     VmStkKB := get pVmStkKB; VmExeKB := get pVmExeKB;
     VmLibKB := get pVmLibKB; VmPTEKB := get pVmPTEKB;
     VmSwapKB := get pVmSwapKB;
     VoluntaryCtxtSwitches := get pVoluntaryCtxtSwitches;
     NonvoluntaryCtxtSwitches := get pNonvoluntaryCtxtSwitches |}.

Record procStatusScanner : Type := mkScanner {
  format : text;
  args : list field
}.

Record procStatusBuilder : Type := mkBuilder {
  ps : ProcStatus;
  scanners : list procStatusScanner
}.

(** ** strconv.ParseInt(tok, 10, 64)

    Modelled by its contract: an optional sign, then one or more decimal
    digits; the value, or [ErrRange] when it does not fit 64 bits, or
    [ErrSyntax]. *)

Definition digitVal (r : rune) : Z := Z.of_N r - 48.

(** The number a string of decimal digits denotes. *)
Definition decimal (ds : text) : Z :=
  fold_left (fun n d => 10 * n + digitVal d) ds 0.

Definition ParseUint (s : text) : error + Z :=
  match s with
  | [] => inl ErrSyntax
  | _ =>
    if forallb isDigit s then
      let n := decimal s in
      if 2 ^ 64 <=? n then inl ErrRange else inr n
    else inl ErrSyntax
  end.

Definition ParseInt (s : text) : error + Z :=
  match s with
  | [] => inl ErrSyntax
  | c :: s' =>
    let neg := (c =? MINUS)%N in
    let body := if (c =? PLUS)%N || (c =? MINUS)%N then s' else s in
    match ParseUint body with
    | inl ErrRange => inl ErrRange
    | inl e => inl e
    | inr un =>
      let cutoff := 2 ^ 63 in
      if negb neg && (cutoff <=? un) then inl ErrRange
      else if neg && (cutoff <? un) then inl ErrRange
      else inr (if neg then - un else un)
    end
  end.

(** ** The scan state [ss] of fmt *)

Record ss : Type := mkss {
  input : text;      (* what the rune reader still holds *)
  count : Z          (* runes consumed so far *)
}.

(** [hugeWid]: with no width in the verb, [argLimit] and [limit] stay at it. *)
Definition hugeWid : Z := 2 ^ 30.

(** [intBits]: the size of [int] (a 64-bit platform). *)
Definition intBits : Z := 64.

(** [getRune]: [None] is [eof]. *)
Definition getRune (s : ss) : option rune * ss :=
  if hugeWid <=? count s then (None, s)
  else match input s with
       | [] => (None, s)
       | r :: rest => (Some r, mkss rest (count s + 1))
       end.

(** [UnreadRune], given the rune that was read last. *)
Definition UnreadRune (r : rune) (s : ss) : ss :=
  mkss (r :: input s) (count s - 1).

(** [peek(ok)]: look at the next rune, consuming nothing. *)
Definition peek (ok : rune -> bool) (s : ss) : bool :=
  match fst (getRune s) with
  | Some r => ok r
  | None => false
  end.

(** [SkipSpace] with [nlIsSpace] false, as [Sscanf] sets it: skips white
    space, panics on a newline, stops before the first other rune. *)
Fixpoint SkipSpace_loop (inp : text) (cnt : Z) : error + ss :=
  if hugeWid <=? cnt then inr (mkss inp cnt)
  else match inp with
       | [] => inr (mkss inp cnt)
       | r :: rest =>
         if (r =? CR)%N && peek (fun c => (c =? LF)%N) (mkss rest (cnt + 1))
         then SkipSpace_loop rest (cnt + 1)
         else if (r =? LF)%N then inl (ErrScan "unexpected newline")
         else if isSpace r then SkipSpace_loop rest (cnt + 1)
         else inr (mkss inp cnt)
       end.

Definition SkipSpace (s : ss) : error + ss := SkipSpace_loop (input s) (count s).

(** [inputc := s.getRune(); for isSpace(inputc) && inputc != '\n' { inputc =
    s.getRune() }]: the rune the loop stops at (read), and the state. *)
Fixpoint skipBlanks_loop (inp : text) (cnt : Z) : option rune * ss :=
  if hugeWid <=? cnt then (None, mkss inp cnt)
  else match inp with
       | [] => (None, mkss inp cnt)
       | r :: rest =>
         if isBlank r then skipBlanks_loop rest (cnt + 1)
         else (Some r, mkss rest (cnt + 1))
       end.

Definition skipBlanks (s : ss) : option rune * ss :=
  skipBlanks_loop (input s) (count s).

(** [for s.accept(digits) {}]: the digits read, and the state. *)
Fixpoint acceptDigits_loop (inp : text) (cnt : Z) : text * ss :=
  if hugeWid <=? cnt then ([], mkss inp cnt)
  else match inp with
       | [] => ([], mkss inp cnt)
       | r :: rest =>
         if isDigit r
         then let '(ds, s') := acceptDigits_loop rest (cnt + 1) in (r :: ds, s')
         else ([], mkss inp cnt)
       end.

(** [s.accept(ok)]: the rune accepted into [s.buf], if any. *)
Definition accept (ok : rune -> bool) (s : ss) : option rune * ss :=
  match getRune s with
  | (Some r, s') => if ok r then (Some r, s') else (None, s)
  | (None, _) => (None, s)
  end.

(** [scanInt('d', intBits)]. *)
Definition scanInt (s : ss) : error + (Z * ss) :=
  match SkipSpace s with
  | inl e => inl e
  | inr s1 =>
    match fst (getRune s1) with
    | None => inl EOF                                    (* s.notEOF() *)
    | Some _ =>
      let '(sgn, s2) := accept isSign s1 in
      match fst (getRune s2) with
      | None => inl EOF                                  (* s.notEOF() *)
      | Some _ =>
        match accept isDigit s2 with
        | (None, _) => inl (ErrScan "expected integer")
        | (Some d, s3) =>
          let '(ds, s4) := acceptDigits_loop (input s3) (count s3) in
          let tok := match sgn with Some c => [c] | None => [] end ++ d :: ds in
          match ParseInt tok with
          | inl e => inl e
          | inr i =>
            if (- 2 ^ (intBits - 1) <=? i) && (i <? 2 ^ (intBits - 1))
            then inr (i, s4)
            else inl (ErrScan "integer overflow on token")
          end
        end
      end
    end
  end.

(** ** [advance]: literal text and white space of the format *)

(** The run of white space at the head of the format: the newlines in it,
    whether white space follows the last newline, and its length. *)
Fixpoint spaceRun (format : text) (newlines : nat) (trailingSpace : bool)
  : nat * bool * nat :=
  match format with
  | fmtc :: ftail =>
    if isSpace fmtc then
      let '(nl, tr, n) :=
        if (fmtc =? LF)%N then spaceRun ftail (S newlines) false
        else spaceRun ftail newlines true in
      (nl, tr, S n)
    else (newlines, trailingSpace, O)
  | [] => (newlines, trailingSpace, O)
  end.

(** One pass of [for j := 0; j < newlines; j++] for each newline of the run. *)
Fixpoint matchNewlines (newlines : nat) (s : ss) : error + ss :=
  match newlines with
  | O => inr s
  | S j =>
    match skipBlanks s with
    | (Some inputc, s') =>
      if (inputc =? LF)%N then matchNewlines j s'
      else inl (ErrScan "newline in format does not match input")
    | (None, s') => matchNewlines j s'
    end
  end.

(** The [if trailingSpace] block. *)
Definition matchTrailing (newlines : nat) (s : ss) : error + ss :=
  let skip :=
    match skipBlanks s with
    | (Some inputc, s') => inr (UnreadRune inputc s')
    | (None, s') => inr s'
    end in
  match newlines, fst (getRune s) with
  | O, Some inputc =>
    if negb (isSpace inputc)
    then inl (ErrScan "expected space in input to match format")
    else if (inputc =? LF)%N
    then inl (ErrScan "newline in input does not match format")
    else skip
  | _, _ => skip
  end.

Inductive adv : Type :=
| AdvStop (w : nat) (s : ss)    (* returns w >= 0, bytes of format consumed *)
| AdvMismatch (s : ss)          (* returns -1 *)
| AdvPanic (e : error)
| AdvFuel.

Fixpoint advance_loop (fuel : nat) (format : text) (i : nat) (s : ss) : adv :=
  match format with
  | [] => AdvStop i s
  | fmtc :: ftail =>
    match fuel with
    | O => AdvFuel
    | S fuel' =>
      if isSpace fmtc then
        let '(newlines, trailingSpace, n) := spaceRun format O false in
        match matchNewlines newlines s with
        | inl e => AdvPanic e
        | inr s1 =>
          match (if trailingSpace then matchTrailing newlines s1 else inr s1) with
          | inl e => AdvPanic e
          | inr s2 => advance_loop fuel' (skipn n format) (i + n) s2
          end
        end
      else
        let literal (f : text) (j : nat) :=
          match getRune s with
          | (None, _) => AdvPanic ErrUnexpectedEOF       (* mustReadRune *)
          | (Some inputc, s') =>
            if (inputc =? fmtc)%N then advance_loop fuel' f (S j) s'
            else AdvMismatch s
          end in
        if (fmtc =? PERCENT)%N then
          match ftail with
          | [] => AdvPanic (ErrScan "missing verb: % at end of format string")
          | nextc :: ftail' =>
            if (nextc =? PERCENT)%N then literal ftail' (S i)
            else AdvStop i s
          end
        else literal ftail i
    end
  end.

Definition advance (format : text) (s : ss) : adv :=
  advance_loop (length format) format O s.

(** ** [doScanf] and [Sscanf] *)

Definition scanned : Type := ProcStatus * nat * option error.

(** After the loop: [if numProcessed < len(a)]. *)
Definition doScanf_end (a : list field) (numProcessed : nat) (p : ProcStatus)
  : scanned :=
  if (numProcessed <? length a)%nat
  then (p, numProcessed, Some (ErrScan "too many operands"))
  else (p, numProcessed, None).

(** The loop of [doScanf].  The record is threaded through: what a verb has
    stored stays stored when a later step panics.  [None]: the format leaves
    the modelled fragment (a width, a verb other than [%d]). *)
Fixpoint doScanf_loop (fuel : nat) (format : text) (a : list field)
    (numProcessed : nat) (s : ss) (p : ProcStatus) : option scanned :=
  match format with
  | [] => Some (doScanf_end a numProcessed p)
  | fmtc :: _ =>
    match fuel with
    | O => None
    | S fuel' =>
      let verb (s0 : ss) :=
        match format with
        | _ :: c :: rest =>
          if (c =? VERB_d)%N then
            match SkipSpace s0 with
            | inl e => Some (p, numProcessed, Some e)
            | inr s1 =>
              match nth_error a numProcessed with
              | None =>
                Some (p, numProcessed, Some (ErrScan "too few operands for format"))
              | Some arg =>
                match scanInt s1 with
                | inl e => Some (p, numProcessed, Some e)
                | inr (v, s2) =>
                  doScanf_loop fuel' rest a (S numProcessed) s2 (store arg v p)
                end
              end
            end
          else None
        | _ => None
        end in
      match advance format s with
      | AdvFuel => None
      | AdvPanic e => Some (p, numProcessed, Some e)
      | AdvStop (S w) s' =>
        doScanf_loop fuel' (skipn (S w) format) a numProcessed s' p
      | AdvStop O s' =>
        if (fmtc =? PERCENT)%N then verb s'
        else Some (doScanf_end a numProcessed p)
      | AdvMismatch s' =>
        if (fmtc =? PERCENT)%N then verb s'
        else Some (p, numProcessed, Some (ErrScan "input does not match format"))
      end
    end
  end.

(** [fmt.Sscanf(str, format, a...)] on the record the pointers [a] aim at. *)
Definition Sscanf (str format : text) (a : list field) (p : ProcStatus)
  : option scanned :=
  doScanf_loop (length format) format a O (mkss str 0) p.

(** ** bufio.Reader *)

(** A reader over a file: the runes still to be delivered and the error the
    file reports after them ([EOF] at its end, another one when reading
    fails).  [ReadString] looks for the byte of the newline, which in UTF-8
    is the rune [LF] and part of no other rune. *)
Record Reader : Type := mkReader {
  data : text;
  fail : error
}.

(** The text through the first [delim], and what follows it. *)
Fixpoint splitDelim (delim : rune) (l : text) : option (text * text) :=
  match l with
  | [] => None
  | c :: l' =>
    if (c =? delim)%N then Some ([c], l')
    else match splitDelim delim l' with
         | Some (line, rest) => Some (c :: line, rest)
         | None => None
         end
  end.

(** [r.ReadString(delim)]: the line including the delimiter; or, when the
    data ends first, what was read and the error. *)
Definition ReadString (r : Reader) (delim : rune)
  : (text * option error) * Reader :=
  match splitDelim delim (data r) with
  | Some (line, rest) => ((line, None), mkReader rest (fail r))
  | None => ((data r, Some (fail r)), mkReader [] (fail r))
  end.

(** ** proc_status.go *)

Definition newProcStatusBuilder : procStatusBuilder :=
  {| ps := ProcStatusZero;
     scanners :=
       [ mkScanner (runes "Pid: %d") [pTID];
         mkScanner (runes "TracerPid: %d") [pTracerPid];
         mkScanner (runes "Uid: %d %d %d %d")
           [pUIDReal; pUIDEffective; pUIDSavedSet; pUIDFileSystem];
         mkScanner (runes "Gid: %d %d %d %d")
           [pGIDReal; pGIDEffective; pGIDSavedSet; pGIDFileSystem];
         mkScanner (runes "FDSize: %d") [pFDSize];
         mkScanner (runes "VmPeak: %d kB") [pVmPeakKB];
         mkScanner (runes "VmSize: %d kB") [pVmSizeKB];
         mkScanner (runes "VmLck:  %d kB") [pVmLckKB];
         mkScanner (runes "VmHWM:  %d kB") [pVmHWMKB];
         mkScanner (runes "VmRSS:  %d kB") [pVmRSSKB];
         mkScanner (runes "VmData: %d kB") [pVmDataKB];
         mkScanner (runes "VmStk:  %d kB") [pVmStkKB];
         mkScanner (runes "VmExe:  %d kB") [pVmExeKB];
         mkScanner (runes "VmLib:  %d kB") [pVmLibKB];
         mkScanner (runes "VmPTE:  %d kB") [pVmPTEKB];
         mkScanner (runes "VmSwap: %d kB") [pVmSwapKB];
         mkScanner (runes "voluntary_ctxt_switches:    %d")
           [pVoluntaryCtxtSwitches];
         mkScanner (runes "nonvoluntary_ctxt_switches: %d")
           [pNonvoluntaryCtxtSwitches] ] |}.

(** What the inner [for] of [readStatus] comes to for one scanner. *)
Inductive lineLoop : Type :=
| Matched (r : Reader) (p : ProcStatus)    (* break *)
| Failed (e : error)                       (* return ProcStatus{}, err *)
| Stuck.                                   (* out of fuel, or no model *)

(** The inner [for]: read a line; on a read error return it; scan the line
    with the scanner; leave the loop when the scan reports no error. *)
Fixpoint readLines (fuel : nat) (s : procStatusScanner) (r : Reader)
    (p : ProcStatus) : lineLoop :=
  match fuel with
  | O => Stuck
  | S fuel' =>
    match ReadString r LF with
    | ((_, Some err), _) => Failed err
    | ((line, None), r') =>
      match Sscanf line (format s) (args s) p with
      | None => Stuck
      | Some (p', _, None) => Matched r' p'
      | Some (p', _, Some _) => readLines fuel' s r' p'
      end
    end
  end.

(** The outer [for _, s := range b.scanners]. *)
Fixpoint readScanners (l : list procStatusScanner) (r : Reader)
    (p : ProcStatus) : option (ProcStatus * option error) :=
  match l with
  | [] => Some (p, None)                             (* return b.ps, nil *)
  | s :: l' =>
    match readLines (S (length (data r))) s r p with
    | Matched r' p' => readScanners l' r' p'
    | Failed e => Some (ProcStatusZero, Some e)
    | Stuck => None
    end
  end.

Definition readStatus (b : procStatusBuilder) (r : Reader)
  : option (ProcStatus * option error) :=
  readScanners (scanners b) r (ps b).

(** [NewStatus]: [os.Open] gives the file or an error; the file is read
    through a new [bufio.Reader] by a new builder. *)
Definition NewStatus (opened : error + Reader)
  : option (ProcStatus * option error) :=
  match opened with
  | inl err => Some (ProcStatusZero, Some err)
  | inr f => readStatus newProcStatusBuilder f
  end.

(** * Notions for the properties *)

(** [stores a vs r]: the values [vs] stored in turn through the pointers
    [a], as the verbs of one [Sscanf] call do. *)
Fixpoint stores (a : list field) (vs : list Z) (r : ProcStatus) : ProcStatus :=
  match a, vs with
  | x :: a', v :: vs' => stores a' vs' (store x v r)
  | _, _ => r
  end.

(** The index [i] the loop starts from is only added to what it returns. *)
Definition shift (k : nat) (r : adv) : adv :=
  match r with
  | AdvStop w s => AdvStop (k + w) s
  | other => other
  end.

(** The formats of the modelled fragment: every [%] starts the verb [%d]. *)
Fixpoint supported (f : text) : bool :=
  match f with
  | [] => true
  | c :: f' =>
    (if (c =? PERCENT)%N
     then match f' with d :: _ => (d =? VERB_d)%N | [] => false end
     else true) && supported f'
  end.

(** Two records that agree behind every pointer outside [a]. *)
Definition agree_outside (a : list field) (r1 r2 : ProcStatus) : Prop :=
  forall q, ~ In q a -> load q r1 = load q r2.

(** A text without a newline. *)
Definition noLF (l : text) : bool := forallb (fun c => negb (c =? LF)%N) l.

(** ** A field scanner that leaves the record alone when it fails

    The field scanner as the specification words it ("on failure it must
    not partially mutate the destination record"), and the parser built on
    it; to be compared with [Sscanf] and [readStatus]. *)

Definition SscanfNoPartial (str f : text) (a : list field) (p : ProcStatus)
  : option scanned :=
  match Sscanf str f a p with
  | Some (_, n, Some e) => Some (p, n, Some e)
  | other => other
  end.

Fixpoint readLinesNoPartial (fuel : nat) (s : procStatusScanner) (r : Reader)
    (p : ProcStatus) : lineLoop :=
  match fuel with
  | O => Stuck
  | S fuel' =>
    match ReadString r LF with
    | ((_, Some err), _) => Failed err
    | ((line, None), r') =>
      match SscanfNoPartial line (format s) (args s) p with
      | None => Stuck
      | Some (p', _, None) => Matched r' p'
      | Some (p', _, Some _) => readLinesNoPartial fuel' s r' p'
      end
    end
  end.

Fixpoint readScannersNoPartial (l : list procStatusScanner) (r : Reader)
    (p : ProcStatus) : option (ProcStatus * option error) :=
  match l with
  | [] => Some (p, None)
  | s :: l' =>
    match readLinesNoPartial (S (length (data r))) s r p with
    | Matched r' p' => readScannersNoPartial l' r' p'
    | Failed e => Some (ProcStatusZero, Some e)
    | Stuck => None
    end
  end.

Definition readStatusNoPartial (b : procStatusBuilder) (r : Reader)
  : option (ProcStatus * option error) :=
  readScannersNoPartial (scanners b) r (ps b).

(** ** Labels *)

(** The label of a format: its text up to the first white space or verb. *)
Fixpoint label (f : text) : text :=
  match f with
  | c :: f' => if isSpace c || (c =? PERCENT)%N then [] else c :: label f'
  | [] => []
  end.

Fixpoint prefixb (l1 l2 : text) : bool :=
  match l1, l2 with
  | [], _ => true
  | c1 :: t1, c2 :: t2 => (c2 =? c1)%N && prefixb t1 t2
  | _ :: _, [] => false
  end.

(** Does some line of the text begin with [lab]?  [atStart] tells whether
    the text itself begins a line. *)
Fixpoint startsLine (lab d : text) (atStart : bool) : bool :=
  match d with
  | [] => false
  | c :: d' => (atStart && prefixb lab d) || startsLine lab d' (c =? LF)%N
  end.

(** ** Lines that carry an instance of a format *)

Definition TAB : rune := 9%N.
Definition SP : rune := 32%N.

(** [noLead P l]: [l] does not begin with a rune of class [P]. *)
Definition noLead (P : rune -> bool) (l : text) : bool :=
  match l with
  | c :: _ => negb (P c)
  | [] => true
  end.

(** [Numeral tok v]: [tok] is a decimal numeral, signed or not, of value [v]. *)
Inductive Numeral : text -> Z -> Prop :=
| Num_plain (ds : text) (v : Z) :
    ds <> [] -> forallb isDigit ds = true -> v = decimal ds -> Numeral ds v
| Num_plus (ds : text) (v : Z) :
    ds <> [] -> forallb isDigit ds = true -> v = decimal ds ->
    Numeral (PLUS :: ds) v
| Num_minus (ds : text) (v : Z) :
    ds <> [] -> forallb isDigit ds = true -> v = - decimal ds ->
    Numeral (MINUS :: ds) v.

(** [Instance f vs line]: [line] begins with the text of the format [f],
    its white space filled with blanks and its verbs [%d] with numerals of
    the values [vs]; what follows in [line] is free. *)
Inductive Instance : text -> list Z -> text -> Prop :=
| inst_end (rest : text) : Instance [] [] rest
| inst_lit (c : rune) (f : text) (vs : list Z) (l : text) :
    isSpace c = false -> c <> PERCENT ->
    Instance f vs l -> Instance (c :: f) vs (c :: l)
| inst_space (sp f : text) (vs : list Z) (ws l : text) :
    sp <> [] -> forallb isBlank sp = true -> noLead isSpace f = true ->
    ws <> [] -> forallb isBlank ws = true -> noLead isBlank l = true ->
    Instance f vs l -> Instance (sp ++ f) vs (ws ++ l)
| inst_int (f : text) (vs : list Z) (ws tok : text) (v : Z) (l : text) :
    forallb isBlank ws = true -> Numeral tok v ->
    - 2 ^ 63 <= v < 2 ^ 63 -> noLead isDigit l = true ->
    Instance f vs l ->
    Instance (PERCENT :: VERB_d :: f) (v :: vs) (ws ++ tok ++ l).

(** No [%%] at the head of the format. *)
Definition noPP (f : text) : bool :=
  match f with
  | a :: b :: _ => negb ((a =? PERCENT)%N && (b =? PERCENT)%N)
  | _ => true
  end.

(** The verbs of a format are as many as the values of its instances. *)
Definition verbs (f : text) : nat := count_occ N.eq_dec f PERCENT.

(** ** Well-formed status files *)

(** Does the scanner accept the line? *)
Definition matches (s : procStatusScanner) (line : text) : bool :=
  match Sscanf line (format s) (args s) ProcStatusZero with
  | Some (_, _, None) => true
  | _ => false
  end.

(** [WellFormed l vss d]: the text [d] is made of lines; for each scanner
    of [l] in turn it holds a line that carries an instance of its format,
    with the values listed in [vss]; before that line come only lines the
    scanner does not accept; after the line of the last scanner anything
    may follow. *)
Inductive WellFormed : list procStatusScanner -> list (list Z) -> text -> Prop :=
| wf_done (rest : text) : WellFormed [] [] rest
| wf_extra (s : procStatusScanner) (l : list procStatusScanner)
    (vss : list (list Z)) (body rest : text) :
    noLF body = true -> matches s (body ++ [LF]) = false ->
    WellFormed (s :: l) vss rest ->
    WellFormed (s :: l) vss (body ++ LF :: rest)
| wf_line (s : procStatusScanner) (l : list procStatusScanner)
    (vs : list Z) (vss : list (list Z)) (body rest : text) :
    noLF body = true -> Instance (format s) vs (body ++ [LF]) ->
    Z.of_nat (length body) < hugeWid ->
    WellFormed l vss rest ->
    WellFormed (s :: l) (vs :: vss) (body ++ LF :: rest).

(** The values of the lines stored scanner by scanner. *)
Fixpoint storesAll (l : list procStatusScanner) (vss : list (list Z))
    (p : ProcStatus) : ProcStatus :=
  match l, vss with
  | s :: l', vs :: vss' => storesAll l' vss' (stores (args s) vs p)
  | _, _ => p
  end.

(** ** A status file *)

(** The columns of a line, separated by tabs. *)
Fixpoint tabbed (cols : list string) : text :=
  match cols with
  | [] => []
  | [c] => runes c
  | c :: cols' => runes c ++ TAB :: tabbed cols'
  end.

(** Lines, each ended by a newline. *)
Fixpoint joinLines (ls : list text) : text :=
  match ls with
  | [] => []
  | b :: ls' => b ++ LF :: joinLines ls'
  end.

Definition sampleHead : list text :=
  [ tabbed ["Name:"; "bash"];
    tabbed ["Umask:"; "0022"];
    tabbed ["State:"; "S (sleeping)"];
    tabbed ["Tgid:"; "1234"];
    tabbed ["Ngid:"; "0"] ]%string.

Definition sampleBody : list text :=
  [ tabbed ["Pid:"; "1234"];
    tabbed ["PPid:"; "1"];
    tabbed ["TracerPid:"; "0"];
    tabbed ["Uid:"; "1000"; "1000"; "1000"; "1000"];
    tabbed ["Gid:"; "100"; "100"; "100"; "100"];
    tabbed ["FDSize:"; "256"];
    tabbed ["Groups:"; "4 24 27 100 "];
    tabbed ["VmPeak:"; "   10000 kB"];
    tabbed ["VmSize:"; "    9000 kB"];
    tabbed ["VmLck:"; "       0 kB"];
    tabbed ["VmPin:"; "       0 kB"];
    tabbed ["VmHWM:"; "    5000 kB"];
    tabbed ["VmRSS:"; "    4000 kB"];
    tabbed ["VmData:"; "     300 kB"];
    tabbed ["VmStk:"; "     132 kB"];
    tabbed ["VmExe:"; "     900 kB"];
    tabbed ["VmLib:"; "    2000 kB"];
    tabbed ["VmPTE:"; "      60 kB"];
    tabbed ["VmSwap:"; "       0 kB"];
    tabbed ["Threads:"; "1"];
    tabbed ["voluntary_ctxt_switches:"; "150"] ]%string.

Definition sampleLast : text :=
  tabbed ["nonvoluntary_ctxt_switches:"; "7"]%string.

(** A status file as the kernel writes it. *)
Definition sampleStatus : text :=
  joinLines (sampleHead ++ sampleBody ++ [sampleLast]).

(** The record it holds. *)
Definition sampleRecord : ProcStatus :=
  mkProcStatus 1234 0 1000 1000 1000 1000 100 100 100 100 256
    10000 9000 0 5000 4000 300 132 900 2000 60 0 150 7.

(** * nfsd.go: the records of /proc/net/rpc/nfsd *)

(** [NFSdv3Stats], the proc3 line. *)
Module NFSdv3Stats.
Record t : Type := mk {
  Values : Z;   (* Should be 22. *)
  Null : Z; GetAttr : Z; SetAttr : Z; Lookup : Z; Access : Z; ReadLink : Z;
  Read : Z; Write : Z; Create : Z; MkDir : Z; SymLink : Z; MkNod : Z;
  Remove : Z; RmDir : Z; Rename : Z; Link : Z; ReadDir : Z; ReadDirPlus : Z;
  FsStat : Z; FsInfo : Z; PathConf : Z; Commit : Z
}.
End NFSdv3Stats.

(** [NFSdv4Ops], the proc4ops line.  The declaration gives a type to the
    fields up to [Access] only; the fields from [Close] on are taken as
    counters like them. *)
Module NFSdv4Ops.
Record t : Type := mk {
  Values : Z;   (* Variable depending on v4.x sub-version. *)
  Op0Unused : Z; Op1Unused : Z; Op2Future : Z; Access : Z; Close : Z;
  Commit : Z; Create : Z; DelegPurge : Z; DelegReturn : Z; GetAttr : Z;
  GetFH : Z; Link : Z; Lock : Z; Lockt : Z; Locku : Z; Lookup : Z;
  LookupRoot : Z; Nverify : Z; Open : Z; OpenAttr : Z; OpenConfirm : Z;
  OpenDgrd : Z; PutFH : Z; PutPubFH : Z; PutRootFH : Z; Read : Z;
  ReadDir : Z; ReadLink : Z; Remove : Z; Rename : Z; Renew : Z;
  RestoreFH : Z; SaveFH : Z; SecInfo : Z; SetAttr : Z; Verify : Z;
  Write : Z; RelLockOwner : Z
}.
End NFSdv4Ops.

(** Modelled from the spec: the tokens of a line ("the leading
    whitespace-delimited token is the tag"); nfsd.go declares the records
    only and holds no parser. *)
Fixpoint fieldsFrom (cur : text) (l : text) : list text :=
  match l with
  | [] => match cur with [] => [] | _ => [cur] end
  | c :: l' =>
    if isSpace c
    then match cur with [] => fieldsFrom [] l' | _ => cur :: fieldsFrom [] l' end
    else fieldsFrom (cur ++ [c]) l'
  end.

(** Modelled from the spec: the whitespace-delimited tokens of a line. *)
Definition Fields (l : text) : list text := fieldsFrom [] l.

(** Modelled from the spec: a token read as an unsigned 64-bit integer. *)
Definition parseUint64 (tok : text) : option Z :=
  match ParseUint tok with
  | inr n => Some n
  | inl _ => None
  end.

(** Modelled from the spec: the first [n] tokens read as counters; fewer
    when the line ends before ("absent trailing fields hold zero"). *)
Fixpoint parseCounters (n : nat) (toks : list text) : option (list Z) :=
  match n, toks with
  | O, _ => Some []
  | _, [] => Some []
  | S n', tok :: toks' =>
    match parseUint64 tok with
    | None => None
    | Some v =>
      match parseCounters n' toks' with
      | None => None
      | Some cs => Some (v :: cs)
      end
    end
  end.

(** Modelled from the spec: a variable-arity tag.  "The first token after
    the tag is an unsigned integer Values giving the count of following
    counters actually present.  Parse up to min(Values,
    maximum-known-fields-for-this-tag) subsequent tokens"; the tokens after
    them are ignored. *)
Definition parseVariable (maxKnown : nat) (toks : list text)
  : option (Z * list Z) :=
  match toks with
  | [] => None
  | vtok :: rest =>
    match parseUint64 vtok with
    | None => None
    | Some values =>
      match parseCounters (Z.to_nat (Z.min values (Z.of_nat maxKnown))) rest with
      | None => None
      | Some cs => Some (values, cs)
      end
    end
  end.

(** Modelled from the spec: the counter at a position, zero when the line
    did not hold it ("any named counter beyond Values remains at its zero
    default"). *)
Definition counter (cs : list Z) (i : nat) : Z := nth i cs 0.

(** Modelled from the spec: the counters "in the fixed declared name order
    for that tag", proc3. *)
Definition NFSdv3Stats_of (values : Z) (cs : list Z) : NFSdv3Stats.t :=
  let c := counter cs in
  NFSdv3Stats.mk values
    (c 0%nat) (c 1%nat) (c 2%nat) (c 3%nat) (c 4%nat) (c 5%nat) (c 6%nat)
    (c 7%nat) (c 8%nat) (c 9%nat) (c 10%nat) (c 11%nat) (c 12%nat) (c 13%nat)
    (c 14%nat) (c 15%nat) (c 16%nat) (c 17%nat) (c 18%nat) (c 19%nat)
    (c 20%nat) (c 21%nat).

(** Modelled from the spec: the counters in the declared order, proc4ops. *)
Definition NFSdv4Ops_of (values : Z) (cs : list Z) : NFSdv4Ops.t :=
  let c := counter cs in
  NFSdv4Ops.mk values
    (c 0%nat) (c 1%nat) (c 2%nat) (c 3%nat) (c 4%nat) (c 5%nat) (c 6%nat)
    (c 7%nat) (c 8%nat) (c 9%nat) (c 10%nat) (c 11%nat) (c 12%nat) (c 13%nat)
    (c 14%nat) (c 15%nat) (c 16%nat) (c 17%nat) (c 18%nat) (c 19%nat)
    (c 20%nat) (c 21%nat) (c 22%nat) (c 23%nat) (c 24%nat) (c 25%nat)
    (c 26%nat) (c 27%nat) (c 28%nat) (c 29%nat) (c 30%nat) (c 31%nat)
    (c 32%nat) (c 33%nat) (c 34%nat) (c 35%nat) (c 36%nat) (c 37%nat).

Fixpoint text_eqb (a b : text) : bool :=
  match a, b with
  | [], [] => true
  | x :: a', y :: b' => (x =? y)%N && text_eqb a' b'
  | _, _ => false
  end.

(** Modelled from the spec: what a line of the statistics file holds ("the
    sub-record type keyed by that tag"); of the eleven tags the two
    variable-arity ones the properties below are about are told apart. *)
Inductive NFSdLine : Type :=
| LineProc3 (r : NFSdv3Stats.t)
| LineProc4Ops (r : NFSdv4Ops.t)
| LineOther.

(** Modelled from the spec: the dispatch on the tag of a line.  [None]: the
    line is malformed. *)
Definition parseNFSdLine (line : text) : option NFSdLine :=
  match Fields line with
  | [] => Some LineOther
  | tag :: toks =>
    if text_eqb tag (runes "proc3") then
      match parseVariable 22 toks with
      | Some (values, cs) => Some (LineProc3 (NFSdv3Stats_of values cs))
      | None => None
      end
    else if text_eqb tag (runes "proc4ops") then
      match parseVariable 38 toks with
      | Some (values, cs) => Some (LineProc4Ops (NFSdv4Ops_of values cs))
      | None => None
      end
    else Some LineOther
  end.

(** Tokens separated by single spaces. *)
Fixpoint joinSP (toks : list text) : text :=
  match toks with
  | [] => []
  | [t] => t
  | t :: toks' => t ++ SP :: joinSP toks'
  end.

(** A token: not empty, no white space in it. *)
Definition tokenb (t : text) : bool :=
  negb (text_eqb t []) && forallb (fun c => negb (isSpace c)) t.

(** A numeral of an unsigned 64-bit integer. *)
Definition numericb (t : text) : bool :=
  negb (text_eqb t []) && forallb isDigit t && (decimal t <? 2 ^ 64).

(** The formats made of literal text, runs of blanks with text or a verb
    after them, and verbs [%d]. *)
Fixpoint plain (f : text) : bool :=
  match f with
  | [] => true
  | c :: f' =>
    if isSpace c then
      isBlank c && match f' with [] => false | _ :: _ => true end && plain f'
    else if (c =? PERCENT)%N then
      match f' with
      | d :: f'' => (d =? VERB_d)%N && plain f''
      | [] => false
      end
    else plain f'
  end.

(** * Properties *)

(** ** Tactics *)

Ltac bool_to_prop :=
  repeat rewrite ?andb_true_iff, ?orb_true_iff, ?andb_false_iff, ?orb_false_iff,
    ?negb_true_iff, ?negb_false_iff, ?N.leb_le, ?N.ltb_lt, ?N.eqb_eq,
    ?N.leb_gt, ?N.ltb_ge, ?N.eqb_neq in *.

(** The prefix of a concrete text made of the runes of a class, and the
    derivation of [Instance] and [WellFormed] for concrete lines. *)
Ltac take_while P L :=
  lazymatch L with
  | ?c :: ?r =>
    let b := eval vm_compute in (P c) in
    lazymatch b with
    | true => let x := take_while P r in constr:(c :: x)
    | false => constr:(@nil rune)
    end
  | _ => constr:(@nil rune)
  end.

Ltac take_numeral L :=
  lazymatch L with
  | ?c :: ?r =>
    let b := eval vm_compute in (isSign c) in
    lazymatch b with
    | true => let x := take_while isDigit r in constr:(c :: x)
    | false => take_while isDigit L
    end
  | _ => constr:(@nil rune)
  end.

Ltac numeral :=
  first [ apply Num_plus; [discriminate | reflexivity | reflexivity]
        | apply Num_minus; [discriminate | reflexivity | reflexivity]
        | apply Num_plain; [discriminate | reflexivity | reflexivity] ].

Ltac instance :=
  lazymatch goal with
  | |- Instance [] _ _ => apply inst_end
  | |- Instance (?c :: ?f) ?vs ?L =>
    let sp := eval vm_compute in (isSpace c) in
    lazymatch sp with
    | true =>
      let spv := take_while isBlank (c :: f) in
      let fv := eval vm_compute in (skipn (length spv) (c :: f)) in
      let wsv := take_while isBlank L in
      let lv := eval vm_compute in (skipn (length wsv) L) in
      apply (inst_space spv fv vs wsv lv);
      [ discriminate | reflexivity | reflexivity
      | discriminate | reflexivity | reflexivity | instance ]
    | false =>
      let pc := eval vm_compute in (N.eqb c PERCENT) in
      lazymatch pc with
      | true =>
        let wsv := take_while isBlank L in
        let L1 := eval vm_compute in (skipn (length wsv) L) in
        let tok := take_numeral L1 in
        let lv := eval vm_compute in (skipn (length tok) L1) in
        lazymatch f with
        | _ :: ?f' =>
          lazymatch vs with
          | ?v :: ?vs' =>
            apply (inst_int f' vs' wsv tok v lv);
            [ reflexivity | numeral | split; [discriminate | reflexivity]
            | reflexivity | instance ]
          end
        end
      | false => apply inst_lit; [reflexivity | discriminate | instance]
      end
    end
  end.

Ltac instance_of_line :=
  lazymatch goal with
  | |- Instance ?f ?vs ?L =>
    let f' := eval vm_compute in f in
    let L' := eval vm_compute in L in
    change (Instance f' vs L'); instance
  end.

Ltac well_formed :=
  lazymatch goal with
  | |- WellFormed [] _ _ => apply wf_done
  | |- WellFormed (?s :: ?l) ?vss (?body ++ LF :: ?rest) =>
    let m := eval vm_compute in (matches s (body ++ [LF])) in
    lazymatch m with
    | true =>
      apply wf_line;
      [ reflexivity | instance_of_line | reflexivity | well_formed ]
    | false =>
      apply wf_extra; [ reflexivity | vm_compute; reflexivity | well_formed ]
    end
  end.

Ltac well_formed_file :=
  lazymatch goal with
  | |- WellFormed ?l ?vss ?d =>
    let l' := eval cbv [scanners newProcStatusBuilder] in l in
    let d0 := eval cbv [sampleStatus] in d in
    lazymatch d0 with
    | joinLines ?ls =>
      let ls' := eval cbv [sampleHead sampleBody app] in ls in
      let d' := eval cbv [joinLines] in (joinLines ls') in
      change (WellFormed l' vss d'); well_formed
    end
  end.

(** ** Pointers into the record *)

Lemma field_eqb_refl (p : field) : field_eqb p p = true.
Proof. unfold field_eqb. destruct (field_eq_dec p p); congruence. Qed.

Lemma field_eqb_neq (p q : field) : p <> q -> field_eqb p q = false.
Proof. unfold field_eqb. destruct (field_eq_dec p q); congruence. Qed.

Lemma load_store (p q : field) (v : Z) (r : ProcStatus) :
  load q (store p v r) = if field_eqb p q then v else load q r.
Proof. destruct q; reflexivity. Qed.

Lemma load_store_same (p : field) (v : Z) (r : ProcStatus) :
  load p (store p v r) = v.
Proof. rewrite load_store, field_eqb_refl. reflexivity. Qed.

Lemma load_store_other (p q : field) (v : Z) (r : ProcStatus) :
  p <> q -> load q (store p v r) = load q r.
Proof. intro H. rewrite load_store, field_eqb_neq by assumption. reflexivity. Qed.

(** Two records with the same contents behind every pointer are equal. *)
Lemma ProcStatus_ext (r1 r2 : ProcStatus) :
  (forall q, load q r1 = load q r2) -> r1 = r2.
Proof.
  intro H. destruct r1, r2.
  pose proof (H pTID); pose proof (H pTracerPid);
  pose proof (H pUIDReal); pose proof (H pUIDEffective);
  pose proof (H pUIDSavedSet); pose proof (H pUIDFileSystem);
  pose proof (H pGIDReal); pose proof (H pGIDEffective);
  pose proof (H pGIDSavedSet); pose proof (H pGIDFileSystem);
  pose proof (H pFDSize);
  pose proof (H pVmPeakKB); pose proof (H pVmSizeKB);
  pose proof (H pVmLckKB); pose proof (H pVmHWMKB);
  pose proof (H pVmRSSKB); pose proof (H pVmDataKB);
  pose proof (H pVmStkKB); pose proof (H pVmExeKB);
  pose proof (H pVmLibKB); pose proof (H pVmPTEKB);
  pose proof (H pVmSwapKB);
  pose proof (H pVoluntaryCtxtSwitches);
  pose proof (H pNonvoluntaryCtxtSwitches).
  simpl in *. subst. reflexivity.
Qed.

Lemma stores_nil_r (a : list field) (r : ProcStatus) : stores a [] r = r.
Proof. destruct a; reflexivity. Qed.

Lemma load_stores_notin (a : list field) :
  forall vs r q, ~ In q a -> load q (stores a vs r) = load q r.
Proof.
  induction a as [|x a IH]; intros vs r q Hq; [reflexivity|].
  destruct vs as [|v vs]; [reflexivity|]. simpl.
  rewrite IH by (intro; apply Hq; right; assumption).
  apply load_store_other. intro; subst. apply Hq. left. reflexivity.
Qed.

(** What a complete store leaves behind each pointer does not depend on
    the record it started from. *)
Lemma load_stores_full (a : list field) :
  forall vs r r' q, length vs = length a -> In q a ->
    load q (stores a vs r) = load q (stores a vs r').
Proof.
  induction a as [|x a IH]; intros vs r r' q Hlen Hq; [destruct Hq|].
  destruct vs as [|v vs]; [discriminate|]. simpl in *.
  destruct (in_dec field_eq_dec q a) as [Hin|Hnin].
  - apply IH; [lia | assumption].
  - destruct Hq as [->|Hq]; [|contradiction].
    rewrite !load_stores_notin by assumption.
    rewrite !load_store_same. reflexivity.
Qed.

(** A complete store overwrites whatever an earlier, partial store through
    the same pointers left. *)
Lemma stores_overwrite (a : list field) (vs ws : list Z) (r : ProcStatus) :
  length vs = length a ->
  stores a vs (stores a ws r) = stores a vs r.
Proof.
  intro Hlen. apply ProcStatus_ext. intro q.
  destruct (in_dec field_eq_dec q a) as [Hin|Hnin].
  - apply load_stores_full; assumption.
  - rewrite !load_stores_notin by assumption. reflexivity.
Qed.

(** ** Fuel: the loops over the format always come to an end *)

Lemma spaceRun_length (f : text) :
  forall nl tr, (snd (spaceRun f nl tr) <= length f)%nat.
Proof.
  induction f as [|c f IH]; intros nl tr; simpl; [lia|].
  destruct (isSpace c); simpl; [|lia].
  destruct (c =? LF)%N.
  - specialize (IH (S nl) false).
    destruct (spaceRun f (S nl) false) as [[? ?] n]. simpl in *. lia.
  - specialize (IH nl true).
    destruct (spaceRun f nl true) as [[? ?] n]. simpl in *. lia.
Qed.

Lemma spaceRun_head (c : rune) (f : text) (nl : nat) (tr : bool) :
  isSpace c = true ->
  exists nl' tr' n, spaceRun (c :: f) nl tr = (nl', tr', S n) /\ (n <= length f)%nat.
Proof.
  intro Hc. simpl. rewrite Hc.
  destruct (c =? LF)%N.
  - pose proof (spaceRun_length f (S nl) false) as H.
    destruct (spaceRun f (S nl) false) as [[a b] n]. simpl in H. eauto.
  - pose proof (spaceRun_length f nl true) as H.
    destruct (spaceRun f nl true) as [[a b] n]. simpl in H. eauto.
Qed.

Lemma advance_loop_fuel :
  forall fuel1 fuel2 f i s,
    (length f <= fuel1)%nat -> (length f <= fuel2)%nat ->
    advance_loop fuel1 f i s = advance_loop fuel2 f i s.
Proof.
  induction fuel1 as [|k IH]; intros fuel2 f i s H1 H2.
  - destruct f; [destruct fuel2; reflexivity | simpl in H1; lia].
  - destruct f as [|c t]; [destruct fuel2; reflexivity|].
    destruct fuel2 as [|k2]; [simpl in H2; lia|].
    simpl in H1, H2.
    cbn [advance_loop].
    destruct (isSpace c) eqn:Hc.
    + destruct (spaceRun_head c t O false Hc) as (nl & tr & n & Hrun & Hn).
      rewrite Hrun.
      destruct (matchNewlines nl s) as [e|s1]; [reflexivity|].
      destruct (if tr then matchTrailing nl s1 else inr s1) as [e|s2];
        [reflexivity|].
      apply IH; cbn [skipn]; rewrite length_skipn; lia.
    + destruct (c =? PERCENT)%N.
      * destruct t as [|nextc t']; [reflexivity|].
        destruct (nextc =? PERCENT)%N; [|reflexivity].
        destruct (getRune s) as [[inputc|] s']; [|reflexivity].
        destruct (inputc =? c)%N; [|reflexivity].
        apply IH; simpl in *; lia.
      * destruct (getRune s) as [[inputc|] s']; [|reflexivity].
        destruct (inputc =? c)%N; [|reflexivity].
        apply IH; lia.
Qed.

Lemma advance_loop_not_fuel :
  forall fuel f i s, (length f <= fuel)%nat -> advance_loop fuel f i s <> AdvFuel.
Proof.
  induction fuel as [|k IH]; intros f i s H.
  - destruct f; [discriminate | simpl in H; lia].
  - destruct f as [|c t]; [discriminate|].
    simpl in H. cbn [advance_loop].
    destruct (isSpace c) eqn:Hc.
    + destruct (spaceRun_head c t O false Hc) as (nl & tr & n & Hrun & Hn).
      rewrite Hrun.
      destruct (matchNewlines nl s) as [e|s1]; [discriminate|].
      destruct (if tr then matchTrailing nl s1 else inr s1) as [e|s2];
        [discriminate|].
      apply IH; cbn [skipn]; rewrite length_skipn; lia.
    + destruct (c =? PERCENT)%N.
      * destruct t as [|nextc t']; [discriminate|].
        destruct (nextc =? PERCENT)%N; [|discriminate].
        destruct (getRune s) as [[inputc|] s']; [|discriminate].
        destruct (inputc =? c)%N; [|discriminate].
        apply IH; simpl in *; lia.
      * destruct (getRune s) as [[inputc|] s']; [|discriminate].
        destruct (inputc =? c)%N; [|discriminate].
        apply IH; lia.
Qed.

Lemma advance_loop_shift :
  forall fuel f i s, advance_loop fuel f i s = shift i (advance_loop fuel f O s).
Proof.
  induction fuel as [|k IH]; intros f i s.
  - destruct f; simpl; [f_equal; lia | reflexivity].
  - destruct f as [|c t]; [simpl; f_equal; lia|].
    cbn [advance_loop].
    destruct (isSpace c) eqn:Hc.
    + destruct (spaceRun (c :: t) O false) as [[nl tr] n].
      destruct (matchNewlines nl s) as [e|s1]; [reflexivity|].
      destruct (if tr then matchTrailing nl s1 else inr s1) as [e|s2];
        [reflexivity|].
      rewrite (IH _ (i + n)%nat), (IH _ (O + n)%nat).
      destruct (advance_loop k (skipn n (c :: t)) O s2); simpl; try reflexivity.
      f_equal; lia.
    + destruct (c =? PERCENT)%N.
      * destruct t as [|nextc t']; [reflexivity|].
        destruct (nextc =? PERCENT)%N; [|simpl; f_equal; lia].
        destruct (getRune s) as [[inputc|] s']; [|reflexivity].
        destruct (inputc =? c)%N; [|reflexivity].
        rewrite (IH _ (S (S i))), (IH _ (S (S O))).
        destruct (advance_loop k t' O s'); simpl; try reflexivity.
        f_equal; lia.
      * destruct (getRune s) as [[inputc|] s']; [|reflexivity].
        destruct (inputc =? c)%N; [|reflexivity].
        rewrite (IH _ (S i)), (IH _ (S O)).
        destruct (advance_loop k t O s'); simpl; try reflexivity.
        f_equal; lia.
Qed.

Lemma advance_not_fuel (f : text) (s : ss) : advance f s <> AdvFuel.
Proof. apply advance_loop_not_fuel. lia. Qed.

Lemma doScanf_loop_fuel :
  forall fuel1 fuel2 f a n s p,
    (length f <= fuel1)%nat -> (length f <= fuel2)%nat ->
    doScanf_loop fuel1 f a n s p = doScanf_loop fuel2 f a n s p.
Proof.
  induction fuel1 as [|k IH]; intros fuel2 f a n s p H1 H2.
  - destruct f; [destruct fuel2; reflexivity | simpl in H1; lia].
  - destruct f as [|c t]; [destruct fuel2; reflexivity|].
    destruct fuel2 as [|k2]; [simpl in H2; lia|].
    simpl in H1, H2. cbn [doScanf_loop].
    assert (Hverb :
      forall s0,
        match c :: t with
        | _ :: c0 :: rest =>
          if (c0 =? VERB_d)%N then
            match SkipSpace s0 with
            | inl e => Some (p, n, Some e)
            | inr s1 =>
              match nth_error a n with
              | None => Some (p, n, Some (ErrScan "too few operands for format"))
              | Some arg =>
                match scanInt s1 with
                | inl e => Some (p, n, Some e)
                | inr (v, s2) => doScanf_loop k rest a (S n) s2 (store arg v p)
                end
              end
            end
          else None
        | _ => None
        end =
        match c :: t with
        | _ :: c0 :: rest =>
          if (c0 =? VERB_d)%N then
            match SkipSpace s0 with
            | inl e => Some (p, n, Some e)
            | inr s1 =>
              match nth_error a n with
              | None => Some (p, n, Some (ErrScan "too few operands for format"))
              | Some arg =>
                match scanInt s1 with
                | inl e => Some (p, n, Some e)
                | inr (v, s2) => doScanf_loop k2 rest a (S n) s2 (store arg v p)
                end
              end
            end
          else None
        | _ => None
        end).
    { intro s0. destruct t as [|c0 rest]; [reflexivity|].
      destruct (c0 =? VERB_d)%N; [|reflexivity].
      destruct (SkipSpace s0) as [e|s1]; [reflexivity|].
      destruct (nth_error a n) as [arg|]; [|reflexivity].
      destruct (scanInt s1) as [e|[v s2]]; [reflexivity|].
      apply IH; simpl in *; lia. }
    destruct (advance (c :: t) s) as [[|w] s'|s'|e|]; try reflexivity.
    + rewrite Hverb. reflexivity.
    + apply IH; cbn [skipn]; rewrite length_skipn; lia.
    + rewrite Hverb. reflexivity.
Qed.

Lemma supported_skipn (n : nat) :
  forall f, supported f = true -> supported (skipn n f) = true.
Proof.
  induction n as [|n IH]; intros f H; [exact H|].
  destruct f as [|c f]; [reflexivity|].
  simpl in H. apply andb_prop in H. apply IH, H.
Qed.

(** On a supported format the model of [Sscanf] always gives a result. *)
Lemma doScanf_loop_total :
  forall fuel f a n s p,
    supported f = true -> (length f <= fuel)%nat ->
    doScanf_loop fuel f a n s p <> None.
Proof.
  induction fuel as [|k IH]; intros f a n s p Hs Hf.
  - destruct f; [discriminate | simpl in Hf; lia].
  - destruct f as [|c t]; [discriminate|].
    simpl in Hf. cbn [doScanf_loop].
    pose proof (advance_not_fuel (c :: t) s) as Hadv.
    assert (Hverb :
      forall s0, (c =? PERCENT)%N = true ->
        match c :: t with
        | _ :: c0 :: rest =>
          if (c0 =? VERB_d)%N then
            match SkipSpace s0 with
            | inl e => Some (p, n, Some e)
            | inr s1 =>
              match nth_error a n with
              | None => Some (p, n, Some (ErrScan "too few operands for format"))
              | Some arg =>
                match scanInt s1 with
                | inl e => Some (p, n, Some e)
                | inr (v, s2) => doScanf_loop k rest a (S n) s2 (store arg v p)
                end
              end
            end
          else None
        | _ => None
        end <> None).
    { intros s0 Hc. simpl in Hs. rewrite Hc in Hs.
      destruct t as [|c0 rest]; [discriminate|].
      apply andb_prop in Hs. destruct Hs as [Hd Hs]. rewrite Hd.
      destruct (SkipSpace s0) as [e|s1]; [discriminate|].
      destruct (nth_error a n) as [arg|]; [|discriminate].
      destruct (scanInt s1) as [e|[v s2]]; [discriminate|].
      simpl in Hs. apply andb_prop in Hs.
      apply IH; [apply Hs | simpl in *; lia]. }
    destruct (advance (c :: t) s) as [[|w] s'|s'|e|]; try discriminate.
    + destruct (c =? PERCENT)%N eqn:Hc; [apply Hverb; reflexivity | discriminate].
    + apply IH; [apply supported_skipn; exact Hs|].
      cbn [skipn]; rewrite length_skipn; lia.
    + destruct (c =? PERCENT)%N eqn:Hc; [apply Hverb; reflexivity | discriminate].
    + congruence.
Qed.

Lemma Sscanf_total (str f : text) (a : list field) (p : ProcStatus) :
  supported f = true -> Sscanf str f a p <> None.
Proof. intro H. apply doScanf_loop_total; [exact H | lia]. Qed.

(** ** What [Sscanf] does to the record

    The values scanned and the error depend on the line only; the record is
    changed by storing the values through the first pointers of [a], and a
    scan without error has stored through all of them. *)

Lemma skipn_nth_error (A : Type) (a : list A) :
  forall n x, nth_error a n = Some x -> skipn n a = x :: skipn (S n) a.
Proof.
  induction a as [|y a IH]; intros [|n] x H; try discriminate.
  - injection H as ->. reflexivity.
  - change (skipn n a = x :: skipn (S n) a). apply IH. exact H.
Qed.

Lemma doScanf_loop_stores :
  forall fuel f a n s p r,
    (n <= length a)%nat ->
    doScanf_loop fuel f a n s p = Some r ->
    exists vs e,
      (n + length vs <= length a)%nat /\
      (e = None -> (n + length vs = length a)%nat) /\
      forall p', doScanf_loop fuel f a n s p' =
                 Some (stores (skipn n a) vs p', (n + length vs)%nat, e).
Proof.
  assert (Hend : forall a n, (n <= length a)%nat ->
    exists vs e,
      (n + length vs <= length a)%nat /\
      (e = None -> (n + length vs = length a)%nat) /\
      forall p', doScanf_end a n p' =
                 (stores (skipn n a) vs p', (n + length vs)%nat, e)).
  { intros a n Hn. unfold doScanf_end.
    destruct (n <? length a)%nat eqn:Hlt.
    - exists [], (Some (ErrScan "too many operands")). simpl.
      repeat split; [lia | discriminate |].
      intro p'. rewrite stores_nil_r, Nat.add_0_r. reflexivity.
    - apply Nat.ltb_ge in Hlt. exists [], None. simpl.
      repeat split; [lia | lia |].
      intro p'. rewrite stores_nil_r, Nat.add_0_r. reflexivity. }
  assert (Herr : forall (a : list field) (n : nat) (e : error), (n <= length a)%nat ->
    exists vs e',
      (n + length vs <= length a)%nat /\
      (e' = None -> (n + length vs = length a)%nat) /\
      forall p' : ProcStatus, Some (p', n, Some e) =
                 Some (stores (skipn n a) vs p', (n + length vs)%nat, e')).
  { intros a n e Hn. exists [], (Some e). simpl.
    repeat split; [lia | discriminate |].
    intro p'. rewrite stores_nil_r, Nat.add_0_r. reflexivity. }
  induction fuel as [|k IH]; intros f a n s p r Hn H.
  - destruct f; [|discriminate]. simpl in *.
    destruct (Hend a n Hn) as (vs & e & H1 & H2 & H3).
    exists vs, e. repeat split; try assumption.
    intro p'. rewrite H3. reflexivity.
  - destruct f as [|c t].
    { simpl in *. destruct (Hend a n Hn) as (vs & e & H1 & H2 & H3).
      exists vs, e. repeat split; try assumption.
      intro p'. rewrite H3. reflexivity. }
    cbn [doScanf_loop] in *.
    assert (Hverb : forall s0,
      match c :: t with
      | _ :: c0 :: rest =>
        if (c0 =? VERB_d)%N then
          match SkipSpace s0 with
          | inl e => Some (p, n, Some e)
          | inr s1 =>
            match nth_error a n with
            | None => Some (p, n, Some (ErrScan "too few operands for format"))
            | Some arg =>
              match scanInt s1 with
              | inl e => Some (p, n, Some e)
              | inr (v, s2) => doScanf_loop k rest a (S n) s2 (store arg v p)
              end
            end
          end
        else None
      | _ => None
      end = Some r ->
      exists vs e,
        (n + length vs <= length a)%nat /\
        (e = None -> (n + length vs = length a)%nat) /\
        forall p',
          match c :: t with
          | _ :: c0 :: rest =>
            if (c0 =? VERB_d)%N then
              match SkipSpace s0 with
              | inl e => Some (p', n, Some e)
              | inr s1 =>
                match nth_error a n with
                | None => Some (p', n, Some (ErrScan "too few operands for format"))
                | Some arg =>
                  match scanInt s1 with
                  | inl e => Some (p', n, Some e)
                  | inr (v, s2) => doScanf_loop k rest a (S n) s2 (store arg v p')
                  end
                end
              end
            else None
          | _ => None
          end = Some (stores (skipn n a) vs p', (n + length vs)%nat, e)).
    { intros s0 Hv. destruct t as [|c0 rest]; [discriminate|].
      destruct (c0 =? VERB_d)%N; [|discriminate].
      destruct (SkipSpace s0) as [e|s1]; [apply Herr; exact Hn|].
      destruct (nth_error a n) as [arg|] eqn:Harg; [|apply Herr; exact Hn].
      destruct (scanInt s1) as [e|[v s2]]; [apply Herr; exact Hn|].
      assert (Hlt : (n < length a)%nat)
        by (apply nth_error_Some; congruence).
      destruct (IH _ _ _ _ _ _ Hlt Hv) as (vs & e & H1 & H2 & H3).
      exists (v :: vs), e. simpl length.
      repeat split; [lia | intro He; specialize (H2 He); lia |].
      intro p'. rewrite (skipn_nth_error _ _ _ _ Harg). cbn [stores].
      rewrite H3, Nat.add_succ_r. reflexivity. }
    destruct (advance (c :: t) s) as [[|w] s'|s'|e|]; try discriminate.
    + destruct (c =? PERCENT)%N; [apply Hverb; exact H|].
      destruct (Hend a n Hn) as (vs & e & H1 & H2 & H3).
      exists vs, e. repeat split; try assumption.
      intro p'. rewrite H3. reflexivity.
    + apply (IH _ _ _ _ _ _ Hn H).
    + destruct (c =? PERCENT)%N; [apply Hverb; exact H|].
      apply Herr; exact Hn.
    + apply Herr; exact Hn.
Qed.

Lemma Sscanf_stores (str f : text) (a : list field) (p : ProcStatus) (r : scanned) :
  Sscanf str f a p = Some r ->
  exists vs e,
    (length vs <= length a)%nat /\
    (e = None -> length vs = length a) /\
    forall p', Sscanf str f a p' = Some (stores a vs p', length vs, e).
Proof.
  intro H. unfold Sscanf in *.
  destruct (doScanf_loop_stores _ _ _ _ _ _ _ (Nat.le_0_l _) H)
    as (vs & e & H1 & H2 & H3).
  exists vs, e. simpl in *. auto.
Qed.

Lemma stores_agree_full (a : list field) (vs : list Z) (r1 r2 : ProcStatus) :
  length vs = length a -> agree_outside a r1 r2 ->
  stores a vs r1 = stores a vs r2.
Proof.
  intros Hlen Hag. apply ProcStatus_ext. intro q.
  destruct (in_dec field_eq_dec q a) as [Hin|Hnin].
  - apply load_stores_full; assumption.
  - rewrite !load_stores_notin by assumption. apply Hag. assumption.
Qed.

Lemma stores_agree_outside (a : list field) (vs : list Z) (r1 r2 : ProcStatus) :
  agree_outside a r1 r2 -> agree_outside a (stores a vs r1) r2.
Proof.
  intros Hag q Hq. rewrite load_stores_notin by assumption. apply Hag, Hq.
Qed.

(** ** [ReadString] *)

Lemma splitDelim_app (delim : rune) (l : text) :
  forall line rest, splitDelim delim l = Some (line, rest) ->
    l = line ++ rest /\
    exists body, line = body ++ [delim] /\
                 forallb (fun c => negb (c =? delim)%N) body = true.
Proof.
  induction l as [|c l IH]; intros line rest H; [discriminate|].
  simpl in H. destruct (c =? delim)%N eqn:Hc.
  - apply N.eqb_eq in Hc. subst c. injection H as <- <-.
    split; [reflexivity|]. exists []. split; reflexivity.
  - destruct (splitDelim delim l) as [[line' rest']|]; [|discriminate].
    injection H as <- <-.
    destruct (IH _ _ eq_refl) as (Hl & body & Hb & Hnl).
    split; [simpl; congruence|].
    exists (c :: body). simpl. rewrite Hc, Hnl, Hb. split; reflexivity.
Qed.

Lemma splitDelim_none (delim : rune) (l : text) :
  splitDelim delim l = None <-> forallb (fun c => negb (c =? delim)%N) l = true.
Proof.
  induction l as [|c l IH]; simpl; [tauto|].
  destruct (c =? delim)%N; simpl.
  - split; discriminate.
  - destruct (splitDelim delim l) as [[? ?]|]; [|tauto].
    split; [discriminate|]. intro H. apply IH in H. discriminate.
Qed.

Lemma ReadString_line (r r' : Reader) (line : text) :
  ReadString r LF = ((line, None), r') ->
  data r = line ++ data r' /\ fail r' = fail r /\
  (length (data r') < length (data r))%nat /\
  exists body, line = body ++ [LF] /\
               forallb (fun c => negb (c =? LF)%N) body = true.
Proof.
  unfold ReadString. intro H.
  destruct (splitDelim LF (data r)) as [[l rest]|] eqn:Hs; [|discriminate].
  injection H as <- <-. simpl.
  destruct (splitDelim_app _ _ _ _ Hs) as (Hd & body & Hb & Hnl).
  repeat split; try assumption.
  - rewrite Hd, Hb, !length_app. simpl. lia.
  - exists body. auto.
Qed.

Lemma ReadString_error (r r' : Reader) (line : text) (e : error) :
  ReadString r LF = ((line, Some e), r') -> e = fail r.
Proof.
  unfold ReadString. intro H.
  destruct (splitDelim LF (data r)) as [[l rest]|]; congruence.
Qed.

(** ** The loops of [readStatus] *)

Lemma readLines_fuel (s : procStatusScanner) :
  forall fuel1 fuel2 r p,
    (length (data r) < fuel1)%nat -> (length (data r) < fuel2)%nat ->
    readLines fuel1 s r p = readLines fuel2 s r p.
Proof.
  induction fuel1 as [|k IH]; intros fuel2 r p H1 H2; [lia|].
  destruct fuel2 as [|k2]; [lia|]. simpl.
  destruct (ReadString r LF) as [[line [e|]] r'] eqn:Hr; [reflexivity|].
  destruct (ReadString_line _ _ _ Hr) as (_ & _ & Hlen & _).
  destruct (Sscanf line (format s) (args s) p) as [[[p' n] [e|]]|];
    try reflexivity.
  apply IH; lia.
Qed.

(** One turn of the two loops: the next line is read; a read error ends the
    parse; a line the pending scanner accepts passes the rest of the stream
    to the following scanners; any other line is dropped and the same
    scanner goes on with the rest of the stream. *)
Lemma readScanners_step (s : procStatusScanner) (l : list procStatusScanner)
    (r : Reader) (p : ProcStatus) :
  readScanners (s :: l) r p =
    match ReadString r LF with
    | ((_, Some err), _) => Some (ProcStatusZero, Some err)
    | ((line, None), r') =>
      match Sscanf line (format s) (args s) p with
      | None => None
      | Some (p', _, None) => readScanners l r' p'
      | Some (p', _, Some _) => readScanners (s :: l) r' p'
      end
    end.
Proof.
  cbn [readScanners readLines].
  destruct (ReadString r LF) as [[line [e|]] r'] eqn:Hr; [reflexivity|].
  destruct (ReadString_line _ _ _ Hr) as (_ & _ & Hlen & _).
  destruct (Sscanf line (format s) (args s) p) as [[[p' n] [e|]]|];
    try reflexivity.
  rewrite (readLines_fuel s (length (data r)) (S (length (data r'))));
    [reflexivity | lia | lia].
Qed.

(** An induction principle that follows the turns of the loops. *)
Lemma readScanners_ind (P : list procStatusScanner -> Reader -> ProcStatus -> Prop) :
  (forall r p, P [] r p) ->
  (forall s l r p,
     (forall line r' p' n, ReadString r LF = ((line, None), r') ->
        Sscanf line (format s) (args s) p = Some (p', n, None) -> P l r' p') ->
     (forall line r' p' n e, ReadString r LF = ((line, None), r') ->
        Sscanf line (format s) (args s) p = Some (p', n, Some e) ->
        P (s :: l) r' p') ->
     P (s :: l) r p) ->
  forall l r p, P l r p.
Proof.
  intros Hnil Hcons l.
  induction l as [|s l IHl]; intros r p; [apply Hnil|].
  remember (length (data r)) as m eqn:Hm.
  revert r p Hm.
  induction m as [m IHm] using lt_wf_ind. intros r p Hm.
  apply Hcons.
  - intros. apply IHl.
  - intros line r' p' n e Hr _.
    destruct (ReadString_line _ _ _ Hr) as (_ & _ & Hlen & _).
    apply (IHm (length (data r'))); [lia | reflexivity].
Qed.

Lemma splitDelim_extend (delim : rune) (d extra : text) :
  forall line rest, splitDelim delim d = Some (line, rest) ->
    splitDelim delim (d ++ extra) = Some (line, rest ++ extra).
Proof.
  induction d as [|c d IH]; intros line rest H; [discriminate|].
  simpl in *. destruct (c =? delim)%N.
  - injection H as <- <-. reflexivity.
  - destruct (splitDelim delim d) as [[line' rest']|]; [|discriminate].
    injection H as <- <-. rewrite (IH _ _ eq_refl). reflexivity.
Qed.

(** A parse that succeeds has not looked past the line its last scanner
    accepted: whatever the stream holds further on, the result is the same. *)
Lemma readScanners_extend (extra : text) (e' : error) :
  forall l r p res,
    readScanners l r p = Some (res, None) ->
    readScanners l (mkReader (data r ++ extra) e') p = Some (res, None).
Proof.
  apply (readScanners_ind (fun l r p =>
    forall res, readScanners l r p = Some (res, None) ->
      readScanners l (mkReader (data r ++ extra) e') p = Some (res, None))).
  - intros r p res H. exact H.
  - intros s l r p Hm Hn res H. rewrite readScanners_step in *.
    unfold ReadString in *. simpl data.
    destruct (splitDelim LF (data r)) as [[line rest]|] eqn:Hs; [|discriminate].
    rewrite (splitDelim_extend LF (data r) extra line rest Hs).
    destruct (Sscanf line (format s) (args s) p) as [[[p' n] [err|]]|] eqn:Hsc;
      [| |discriminate].
    + apply (Hn _ _ _ _ _ eq_refl Hsc res H).
    + apply (Hm _ _ _ _ eq_refl Hsc res H).
Qed.

(** C1. [readStatus] takes its scanners strictly in sequence.  With no
    scanner pending it returns the record.  With [s] pending it reads the
    next line; a read error ends the parse; if [s] accepts the line, the
    values are stored and the parse goes on with the scanners after [s] on
    the rest of the stream; if not, the line is dropped and the parse goes
    on with [s] still pending on the rest of the stream.  Nothing but the
    line just read decides a turn, the stream only moves forward, and the
    list of pending scanners only loses its head.  And there is no looking
    ahead: the result of a parse that succeeds stays the same whatever
    text is put after the stream. *)
Theorem readStatus_sequential (p : ProcStatus) (s : procStatusScanner)
    (l : list procStatusScanner) (r : Reader) :
  readStatus (mkBuilder p []) r = Some (p, None) /\
  readStatus (mkBuilder p (s :: l)) r =
    match ReadString r LF with
    | ((_, Some err), _) => Some (ProcStatusZero, Some err)
    | ((line, None), r') =>
      match Sscanf line (format s) (args s) p with
      | None => None
      | Some (p', _, None) => readStatus (mkBuilder p' l) r'
      | Some (p', _, Some _) => readStatus (mkBuilder p' (s :: l)) r'
      end
    end /\
  (forall extra e' res,
     readStatus (mkBuilder p (s :: l)) r = Some (res, None) ->
     readStatus (mkBuilder p (s :: l)) (mkReader (data r ++ extra) e')
     = Some (res, None)).
Proof.
  split; [reflexivity|]. split.
  - unfold readStatus. simpl. apply readScanners_step.
  - intros extra e' res. apply readScanners_extend.
Qed.

Lemma readStatus_sequential_witness :
  readStatus newProcStatusBuilder (mkReader sampleStatus EOF)
  = Some (sampleRecord, None) /\
  readStatus newProcStatusBuilder
    (mkReader (sampleStatus ++ runes "Pid: 5" ++ [LF]) (ErrIO "input/output error"))
  = Some (sampleRecord, None).
Proof.
  split; [vm_compute; reflexivity|].
  apply (proj2 (proj2 (readStatus_sequential ProcStatusZero
                         (mkScanner (runes "Pid: %d") [pTID])
                         (tl (scanners newProcStatusBuilder))
                         (mkReader sampleStatus EOF)))
           (runes "Pid: 5" ++ [LF]) (ErrIO "input/output error") sampleRecord).
  vm_compute. reflexivity.
Defined.

(** ** The parse always returns; the errors it returns *)

(** With a table of supported formats [readStatus] always returns. *)
Lemma readScanners_total (l : list procStatusScanner) (r : Reader) (p : ProcStatus) :
  Forall (fun s => supported (format s) = true) l ->
  readScanners l r p <> None.
Proof.
  revert l r p.
  apply (readScanners_ind (fun l r p =>
    Forall (fun s => supported (format s) = true) l -> readScanners l r p <> None)).
  - discriminate.
  - intros s l r p Hm Hn Hall. rewrite readScanners_step.
    destruct (ReadString r LF) as [[line [e|]] r'] eqn:Hr; [discriminate|].
    pose proof (Sscanf_total line (format s) (args s) p) as Ht.
    destruct (Sscanf line (format s) (args s) p) as [[[p' n] [e|]]|] eqn:Hs.
    + apply (Hn _ _ _ _ _ eq_refl Hs Hall).
    + inversion Hall; subst. apply (Hm _ _ _ _ eq_refl Hs). assumption.
    + exfalso. apply Ht; [|reflexivity]. inversion Hall; assumption.
Qed.

Lemma scanners_supported :
  Forall (fun s => supported (format s) = true) (scanners newProcStatusBuilder).
Proof. repeat constructor. Qed.

Lemma NewStatus_total (opened : error + Reader) : NewStatus opened <> None.
Proof.
  destruct opened as [e|f]; [discriminate|].
  apply readScanners_total, scanners_supported.
Qed.

(** Every failure of the loops is the failure of a read. *)
Lemma readScanners_error (l : list procStatusScanner) (r : Reader) (p : ProcStatus) :
  forall res e, readScanners l r p = Some (res, Some e) ->
    e = fail r /\ res = ProcStatusZero.
Proof.
  revert l r p.
  apply (readScanners_ind (fun l r p =>
    forall res e, readScanners l r p = Some (res, Some e) ->
      e = fail r /\ res = ProcStatusZero)).
  - intros r p res e H. discriminate.
  - intros s l r p Hm Hn res e H. rewrite readScanners_step in H.
    destruct (ReadString r LF) as [[line [e'|]] r'] eqn:Hr.
    + injection H as <- <-. split; [|reflexivity].
      apply (ReadString_error _ _ _ _ Hr).
    + destruct (ReadString_line _ _ _ Hr) as (_ & Hf & _).
      destruct (Sscanf line (format s) (args s) p) as [[[p' n] [e'|]]|] eqn:Hs;
        [| |discriminate].
      * rewrite <- Hf. apply (Hn _ _ _ _ _ eq_refl Hs _ _ H).
      * rewrite <- Hf. apply (Hm _ _ _ _ eq_refl Hs _ _ H).
Qed.

(** C7, as the code has it.  Every error [readStatus] returns is the error
    of the reader (end of input or a failed read), with the zero record;
    the errors [Sscanf] raises on lines that do not fit are never
    returned. *)
Theorem readStatus_error_is_read_error (b : procStatusBuilder) (r : Reader)
    (res : ProcStatus) (e : error) :
  readStatus b r = Some (res, Some e) -> e = fail r /\ res = ProcStatusZero.
Proof. apply readScanners_error. Qed.

Lemma readStatus_error_is_read_error_witness :
  readStatus newProcStatusBuilder
    (mkReader (runes "Pid: abc" ++ [LF]) (ErrIO "input/output error"))
  = Some (ProcStatusZero, Some (ErrIO "input/output error")) /\
  ErrIO "input/output error"
  = fail (mkReader (runes "Pid: abc" ++ [LF]) (ErrIO "input/output error")) /\
  ProcStatusZero = ProcStatusZero.
Proof.
  split; [vm_compute; reflexivity|].
  apply (readStatus_error_is_read_error newProcStatusBuilder
           (mkReader (runes "Pid: abc" ++ [LF]) (ErrIO "input/output error"))
           ProcStatusZero (ErrIO "input/output error")).
  vm_compute. reflexivity.
Defined.

(** C7 as it is stated fails: a file that is read to its end and whose
    line does not fit (here [Sscanf] reports "expected integer") yields
    the very error of a file with nothing to read, [EOF]. *)
Lemma readStatus_error_classes_counterexample :
  Sscanf (runes "Pid: abc" ++ [LF]) (runes "Pid: %d") [pTID] ProcStatusZero
  = Some (ProcStatusZero, O, Some (ErrScan "expected integer")) /\
  readStatus newProcStatusBuilder (mkReader (runes "Pid: abc" ++ [LF]) EOF)
  = Some (ProcStatusZero, Some EOF) /\
  readStatus newProcStatusBuilder (mkReader [] EOF)
  = Some (ProcStatusZero, Some EOF).
Proof. repeat split; vm_compute; reflexivity. Qed.

(** ** An unterminated last line *)

Lemma splitDelim_tail (last : text) :
  noLF last = true ->
  forall pre,
    splitDelim LF (pre ++ last) =
    match splitDelim LF pre with
    | Some (line, rest) => Some (line, rest ++ last)
    | None => None
    end.
Proof.
  intros Hlast pre. induction pre as [|c pre IH]; simpl.
  - apply splitDelim_none. exact Hlast.
  - destruct (c =? LF)%N; [reflexivity|].
    rewrite IH. destruct (splitDelim LF pre) as [[? ?]|]; reflexivity.
Qed.

Lemma readScanners_unterminated (last : text) :
  noLF last = true ->
  forall l r p,
    readScanners l (mkReader (data r ++ last) (fail r)) p = readScanners l r p.
Proof.
  intro Hlast.
  apply (readScanners_ind (fun l r p =>
    readScanners l (mkReader (data r ++ last) (fail r)) p = readScanners l r p)).
  - reflexivity.
  - intros s l r p Hm Hn. rewrite !readScanners_step.
    unfold ReadString at 1. simpl data. rewrite (splitDelim_tail _ Hlast).
    unfold ReadString in *.
    destruct (splitDelim LF (data r)) as [[line rest]|]; [|reflexivity].
    simpl fail.
    destruct (Sscanf line (format s) (args s) p) as [[[p' n] [e'|]]|] eqn:Hs;
      [| |reflexivity].
    + apply (Hn _ _ _ _ _ eq_refl Hs).
    + apply (Hm _ _ _ _ eq_refl Hs).
Qed.

(** C10. Text after the last newline of the stream is never scanned: the
    parse comes out as if that text were not there, and a parse that
    reaches it with a scanner still pending fails with the read error,
    whatever the text is. *)
Theorem readStatus_unterminated_last_line (b : procStatusBuilder)
    (pre last : text) (e : error) :
  noLF last = true ->
  readStatus b (mkReader (pre ++ last) e) = readStatus b (mkReader pre e) /\
  (scanners b <> [] ->
   readStatus b (mkReader last e) = Some (ProcStatusZero, Some e)).
Proof.
  intro Hlast. split.
  - apply (readScanners_unterminated _ Hlast (scanners b) (mkReader pre e)).
  - intro Hne. unfold readStatus.
    destruct (scanners b) as [|s l]; [congruence|].
    rewrite readScanners_step. unfold ReadString. simpl data.
    apply splitDelim_none in Hlast. rewrite Hlast. reflexivity.
Qed.

Lemma readStatus_unterminated_last_line_witness :
  matches (mkScanner (runes "nonvoluntary_ctxt_switches: %d")
                     [pNonvoluntaryCtxtSwitches]) sampleLast = true /\
  readStatus newProcStatusBuilder
    (mkReader (joinLines (sampleHead ++ sampleBody) ++ sampleLast) EOF)
  = readStatus newProcStatusBuilder
      (mkReader (joinLines (sampleHead ++ sampleBody)) EOF) /\
  (scanners newProcStatusBuilder <> [] ->
   readStatus newProcStatusBuilder (mkReader sampleLast EOF)
   = Some (ProcStatusZero, Some EOF)).
Proof.
  split; [vm_compute; reflexivity|].
  apply (readStatus_unterminated_last_line newProcStatusBuilder
           (joinLines (sampleHead ++ sampleBody)) sampleLast EOF).
  vm_compute. reflexivity.
Defined.

(** ** What a failed scan leaves in the record *)

(** [Sscanf] itself does write part of its targets before it fails. *)
Lemma Sscanf_partial_store :
  Sscanf (runes "Uid: 1 2 x 4" ++ [LF]) (runes "Uid: %d %d %d %d")
    [pUIDReal; pUIDEffective; pUIDSavedSet; pUIDFileSystem] ProcStatusZero
  = Some (stores [pUIDReal; pUIDEffective] [1; 2] ProcStatusZero, 2%nat,
          Some (ErrScan "expected integer")).
Proof. vm_compute. reflexivity. Qed.

Lemma Sscanf_none_any (str f : text) (a : list field) (p1 p2 : ProcStatus) :
  Sscanf str f a p1 = None -> Sscanf str f a p2 = None.
Proof.
  intro H. destruct (Sscanf str f a p2) as [r|] eqn:H2; [|reflexivity].
  destruct (Sscanf_stores _ _ _ _ _ H2) as (vs & e & _ & _ & H3).
  rewrite H3 in H. discriminate.
Qed.

Lemma readLines_NoPartial (s : procStatusScanner) :
  forall fuel r p1 p2,
    agree_outside (args s) p1 p2 ->
    readLines fuel s r p1 = readLinesNoPartial fuel s r p2.
Proof.
  induction fuel as [|k IH]; intros r p1 p2 Hag; [reflexivity|]. simpl.
  destruct (ReadString r LF) as [[line [e|]] r']; [reflexivity|].
  unfold SscanfNoPartial.
  destruct (Sscanf line (format s) (args s) p1) as [r0|] eqn:H1.
  - destruct (Sscanf_stores _ _ _ _ _ H1) as (vs & e & Hle & Hfull & H3).
    rewrite (H3 p1) in H1. injection H1 as <-. rewrite (H3 p2).
    destruct e as [e|].
    + apply IH. apply stores_agree_outside, Hag.
    + f_equal. apply stores_agree_full; [apply Hfull; reflexivity | exact Hag].
  - rewrite (Sscanf_none_any _ _ _ _ p2 H1). reflexivity.
Qed.

Lemma readScanners_NoPartial (l : list procStatusScanner) :
  forall r p, readScanners l r p = readScannersNoPartial l r p.
Proof.
  induction l as [|s l IH]; intros r p; [reflexivity|].
  cbn [readScanners readScannersNoPartial].
  rewrite (readLines_NoPartial s _ r p p) by (intros q _; reflexivity).
  destruct (readLinesNoPartial (S (length (data r))) s r p); auto.
Qed.

(** C6. What a failed scan wrote never shows in a result: on every stream
    [readStatus] returns what the parser whose scanner leaves the record
    untouched on failure returns. *)
Theorem readStatus_failed_scan_unobservable (b : procStatusBuilder) (r : Reader) :
  readStatus b r = readStatusNoPartial b r.
Proof. apply readScanners_NoPartial. Qed.

(** ** A label that no line begins with *)

Lemma prefixb_app (lab line rest : text) :
  prefixb lab line = true -> prefixb lab (line ++ rest) = true.
Proof.
  revert line. induction lab as [|c lab IH]; intros line H; [reflexivity|].
  destruct line as [|x line]; [discriminate|]. simpl in *.
  apply andb_prop in H. destruct H as [-> H]. simpl. apply IH, H.
Qed.

Lemma startsLine_first (lab line rest : text) :
  line <> [] -> prefixb lab line = true ->
  startsLine lab (line ++ rest) true = true.
Proof.
  intros Hne H. destruct line as [|c line]; [congruence|].
  change (startsLine lab ((c :: line) ++ rest) true)
    with ((true && prefixb lab ((c :: line) ++ rest))
          || startsLine lab (line ++ rest) (c =? LF)%N).
  rewrite (prefixb_app _ _ rest H). reflexivity.
Qed.

Lemma startsLine_next (lab body rest : text) :
  forall b, startsLine lab (body ++ LF :: rest) b = false ->
            startsLine lab rest true = false.
Proof.
  induction body as [|c body IH]; intros b H.
  - simpl in H. apply orb_false_elim in H. apply H.
  - change (startsLine lab ((c :: body) ++ LF :: rest) b)
      with ((b && prefixb lab ((c :: body) ++ LF :: rest))
            || startsLine lab (body ++ LF :: rest) (c =? LF)%N) in H.
    apply orb_false_elim in H. apply (IH _ (proj2 H)).
Qed.

(** Text that does not begin with the label of the format stops [advance]. *)
Lemma advance_loop_label (f : text) :
  forall fuel i inp cnt,
    (length f <= fuel)%nat -> prefixb (label f) inp = false ->
    match advance_loop fuel f i (mkss inp cnt) with
    | AdvMismatch _ | AdvPanic _ => True
    | _ => False
    end.
Proof.
  induction f as [|c t IH]; intros fuel i inp cnt Hf Hp; [discriminate|].
  destruct fuel as [|k]; [simpl in Hf; lia|]. simpl in Hf.
  simpl in Hp. cbn [advance_loop].
  destruct (isSpace c); [discriminate|].
  destruct (c =? PERCENT)%N; [discriminate|]. simpl in Hp.
  unfold getRune. simpl.
  destruct (hugeWid <=? cnt); [exact I|].
  destruct inp as [|x inp]; [exact I|].
  destruct (x =? c)%N; [|exact I].
  apply IH; [lia | exact Hp].
Qed.

Lemma Sscanf_label (str f : text) (a : list field) (p p' : ProcStatus) (n : nat) :
  Sscanf str f a p = Some (p', n, None) -> prefixb (label f) str = true.
Proof.
  intro H. destruct (prefixb (label f) str) eqn:Hp; [reflexivity|].
  exfalso. unfold Sscanf in H.
  destruct f as [|c t]; [discriminate|].
  pose proof (advance_loop_label (c :: t) (length (c :: t)) O str 0
                (Nat.le_refl _) Hp) as Hadv.
  fold (advance (c :: t) (mkss str 0)) in Hadv.
  cbn [length doScanf_loop] in H.
  simpl in Hp.
  destruct (isSpace c); [discriminate|].
  destruct (c =? PERCENT)%N eqn:Hc; [discriminate|].
  destruct (advance (c :: t) (mkss str 0)) as [w s'|s'|e|];
    try contradiction; discriminate.
Qed.

Lemma readScanners_label_absent :
  forall l r p,
    Forall (fun s => supported (format s) = true) l ->
    forall s, In s l ->
      startsLine (label (format s)) (data r) true = false ->
      readScanners l r p = Some (ProcStatusZero, Some (fail r)).
Proof.
  apply (readScanners_ind (fun l r p =>
    Forall (fun s => supported (format s) = true) l ->
    forall s, In s l ->
      startsLine (label (format s)) (data r) true = false ->
      readScanners l r p = Some (ProcStatusZero, Some (fail r)))).
  - intros r p _ s [].
  - intros s0 l r p Hm Hn Hall s Hin Habs. rewrite readScanners_step.
    destruct (ReadString r LF) as [[line [e|]] r'] eqn:Hr.
    + rewrite (ReadString_error _ _ _ _ Hr). reflexivity.
    + destruct (ReadString_line _ _ _ Hr) as (Hd & Hf & _ & body & Hb & _).
      assert (Hnext : startsLine (label (format s)) (data r') true = false).
      { rewrite Hd, Hb, <- app_assoc in Habs. apply (startsLine_next _ _ _ _ Habs). }
      pose proof (Sscanf_total line (format s0) (args s0) p) as Ht.
      destruct (Sscanf line (format s0) (args s0) p) as [[[p' n] [e|]]|] eqn:Hs.
      * rewrite <- Hf. apply (Hn _ _ _ _ _ eq_refl Hs Hall s Hin Hnext).
      * rewrite <- Hf. destruct Hin as [->|Hin].
        -- apply Sscanf_label in Hs.
           rewrite Hd, startsLine_first in Habs; try assumption; try discriminate.
           rewrite Hb. destruct body; discriminate.
        -- apply (Hm _ _ _ _ eq_refl Hs (Forall_inv_tail Hall) s Hin Hnext).
      * exfalso. apply Ht; [|reflexivity]. inversion Hall; assumption.
Qed.

(** C5. When no line of the file begins with the label of one of the
    scanners of the table, the parse fails with the error of the reader
    (end of input or a failed read); no record is returned. *)
Theorem readStatus_label_absent (s : procStatusScanner) (r : Reader) :
  In s (scanners newProcStatusBuilder) ->
  startsLine (label (format s)) (data r) true = false ->
  readStatus newProcStatusBuilder r = Some (ProcStatusZero, Some (fail r)).
Proof.
  intros Hin Habs.
  apply (readScanners_label_absent _ r _ scanners_supported s Hin Habs).
Qed.

Lemma readStatus_label_absent_witness :
  startsLine (runes "VmSwap:")
    (joinLines (sampleHead ++ firstn 18 sampleBody ++ skipn 19 sampleBody
                ++ [sampleLast])) true = false /\
  readStatus newProcStatusBuilder
    (mkReader (joinLines (sampleHead ++ firstn 18 sampleBody
                          ++ skipn 19 sampleBody ++ [sampleLast])) EOF)
  = Some (ProcStatusZero, Some EOF).
Proof.
  split; [vm_compute; reflexivity|].
  apply (readStatus_label_absent
           (mkScanner (runes "VmSwap: %d kB") [pVmSwapKB])
           (mkReader (joinLines (sampleHead ++ firstn 18 sampleBody
                                 ++ skipn 19 sampleBody ++ [sampleLast])) EOF)).
  - simpl. do 15 right. left. reflexivity.
  - vm_compute. reflexivity.
Defined.

(** ** Classes of runes *)

Lemma isSpace_spec (r : rune) :
  isSpace r = true ->
  (9 <= r <= 13 \/ r = 32 \/ r = 133 \/ r = 160 \/ r = 5760 \/
   8192 <= r <= 8202 \/ 8232 <= r <= 8233 \/ r = 8239 \/ r = 8287 \/
   r = 12288)%N.
Proof.
  unfold isSpace, space. cbn [existsb fst snd]. intro H.
  bool_to_prop. lia.
Qed.

Lemma isDigit_spec (r : rune) : isDigit r = true -> (48 <= r <= 57)%N.
Proof. unfold isDigit. intro H. bool_to_prop. lia. Qed.

Lemma isSign_spec (r : rune) : isSign r = true -> (r = 43 \/ r = 45)%N.
Proof. unfold isSign, PLUS, MINUS. intro H. bool_to_prop. lia. Qed.

Lemma not_space (r : rune) :
  (33 <= r <= 127)%N -> isSpace r = false.
Proof.
  intro H. destruct (isSpace r) eqn:E; [|reflexivity].
  apply isSpace_spec in E. lia.
Qed.

Lemma isBlank_spec (r : rune) :
  isBlank r = true -> isSpace r = true /\ (r =? LF)%N = false.
Proof.
  unfold isBlank. intro H. apply andb_prop in H.
  destruct H as [H1 H2]. apply negb_true_iff in H2. auto.
Qed.

(** ** The scanner on blanks and numerals *)

Lemma limit_free (cnt : Z) (n : nat) :
  cnt + Z.of_nat (S n) <= hugeWid -> (hugeWid <=? cnt) = false.
Proof. intro H. apply Z.leb_gt. lia. Qed.

Lemma SkipSpace_loop_blanks (ws : text) :
  forall l cnt,
    forallb isBlank ws = true -> noLead isSpace l = true ->
    cnt + Z.of_nat (length (ws ++ l)) <= hugeWid ->
    SkipSpace_loop (ws ++ l) cnt = inr (mkss l (cnt + Z.of_nat (length ws))).
Proof.
  induction ws as [|w ws IH]; intros l cnt Hws Hl Hb.
  - simpl app. simpl length. rewrite Z.add_0_r.
    destruct l as [|c l]; simpl.
    + destruct (hugeWid <=? cnt); reflexivity.
    + simpl in Hb. rewrite (limit_free cnt (length l)) by exact Hb.
      simpl in Hl. apply negb_true_iff in Hl.
      assert (Hcr : (c =? CR)%N = false).
      { destruct (c =? CR)%N eqn:E; [|reflexivity].
        apply N.eqb_eq in E. subst c. discriminate. }
      assert (Hlf : (c =? LF)%N = false).
      { destruct (c =? LF)%N eqn:E; [|reflexivity].
        apply N.eqb_eq in E. subst c. discriminate. }
      rewrite Hcr, Hlf, Hl. reflexivity.
  - simpl in Hws. apply andb_prop in Hws. destruct Hws as [Hw Hws].
    apply isBlank_spec in Hw. destruct Hw as [Hsp Hlf].
    simpl app. cbn [SkipSpace_loop].
    simpl length in Hb. rewrite (limit_free cnt _ Hb).
    replace (cnt + Z.of_nat (length (w :: ws)))
      with ((cnt + 1) + Z.of_nat (length ws)) by (simpl length; lia).
    rewrite Hlf, Hsp.
    destruct ((w =? CR)%N && _); apply IH; try assumption; lia.
Qed.

Lemma skipBlanks_loop_blanks (ws : text) :
  forall l cnt,
    forallb isBlank ws = true -> noLead isBlank l = true ->
    cnt + Z.of_nat (length (ws ++ l)) <= hugeWid ->
    skipBlanks_loop (ws ++ l) cnt =
    match l with
    | [] => (None, mkss [] (cnt + Z.of_nat (length ws)))
    | c :: l' => (Some c, mkss l' (cnt + Z.of_nat (length ws) + 1))
    end.
Proof.
  induction ws as [|w ws IH]; intros l cnt Hws Hl Hb.
  - simpl app. simpl length. rewrite Z.add_0_r.
    destruct l as [|c l]; simpl.
    + destruct (hugeWid <=? cnt); reflexivity.
    + simpl in Hb. rewrite (limit_free cnt (length l)) by exact Hb.
      simpl in Hl. apply negb_true_iff in Hl. rewrite Hl. reflexivity.
  - simpl in Hws. apply andb_prop in Hws. destruct Hws as [Hw Hws].
    simpl app. cbn [skipBlanks_loop].
    simpl length in Hb. rewrite (limit_free cnt _ Hb), Hw.
    replace (cnt + Z.of_nat (length (w :: ws)))
      with ((cnt + 1) + Z.of_nat (length ws)) by (simpl length; lia).
    apply IH; try assumption; lia.
Qed.

Lemma matchTrailing_blanks (ws l : text) (cnt : Z) :
  ws <> [] -> forallb isBlank ws = true -> noLead isBlank l = true ->
  cnt + Z.of_nat (length (ws ++ l)) <= hugeWid ->
  matchTrailing O (mkss (ws ++ l) cnt) = inr (mkss l (cnt + Z.of_nat (length ws))).
Proof.
  intros Hne Hws Hl Hb. unfold matchTrailing, skipBlanks. simpl input. simpl count.
  rewrite (skipBlanks_loop_blanks ws l cnt Hws Hl Hb).
  destruct ws as [|w ws]; [congruence|].
  unfold getRune. simpl input. simpl count. simpl app.
  simpl length in Hb. rewrite (limit_free cnt _ Hb). simpl fst.
  simpl in Hws. apply andb_prop in Hws. destruct Hws as [Hw _].
  apply isBlank_spec in Hw. destruct Hw as [Hsp Hlf].
  rewrite Hsp, Hlf. simpl negb. cbv iota.
  destruct l as [|c l]; [reflexivity|].
  unfold UnreadRune. simpl. f_equal. f_equal. lia.
Qed.

Lemma acceptDigits_loop_digits (ds : text) :
  forall l cnt,
    forallb isDigit ds = true -> noLead isDigit l = true ->
    cnt + Z.of_nat (length (ds ++ l)) <= hugeWid ->
    acceptDigits_loop (ds ++ l) cnt = (ds, mkss l (cnt + Z.of_nat (length ds))).
Proof.
  induction ds as [|d ds IH]; intros l cnt Hds Hl Hb.
  - simpl app. simpl length. rewrite Z.add_0_r.
    destruct l as [|c l]; simpl.
    + destruct (hugeWid <=? cnt); reflexivity.
    + simpl in Hl. apply negb_true_iff in Hl. rewrite Hl.
      destruct (hugeWid <=? cnt); reflexivity.
  - simpl in Hds. apply andb_prop in Hds. destruct Hds as [Hd Hds].
    simpl app. cbn [acceptDigits_loop].
    simpl length in Hb. rewrite (limit_free cnt _ Hb), Hd.
    rewrite (IH l (cnt + 1) Hds Hl) by lia.
    f_equal. f_equal. simpl length. lia.
Qed.

Lemma digit_classes (d : rune) :
  isDigit d = true ->
  isSpace d = false /\ isSign d = false /\
  (d =? PLUS)%N = false /\ (d =? MINUS)%N = false.
Proof.
  intro H. apply isDigit_spec in H.
  repeat split.
  - apply not_space. lia.
  - unfold isSign, PLUS, MINUS. apply orb_false_iff.
    split; apply N.eqb_neq; lia.
  - apply N.eqb_neq. unfold PLUS. lia.
  - apply N.eqb_neq. unfold MINUS. lia.
Qed.

Lemma ParseUint_digits (ds : text) :
  ds <> [] -> forallb isDigit ds = true -> decimal ds < 2 ^ 64 ->
  ParseUint ds = inr (decimal ds).
Proof.
  intros Hne Hds Hr. unfold ParseUint.
  destruct ds as [|d ds]; [congruence|].
  rewrite Hds.
  assert (H : (2 ^ 64 <=? decimal (d :: ds)) = false) by (apply Z.leb_gt; lia).
  cbv zeta. rewrite H. reflexivity.
Qed.

Lemma ParseInt_numeral (tok : text) (v : Z) :
  Numeral tok v -> - 2 ^ 63 <= v < 2 ^ 63 -> ParseInt tok = inr v.
Proof.
  intros Hn Hr. destruct Hn as [ds v Hne Hds ->|ds v Hne Hds ->|ds v Hne Hds ->].
  - destruct ds as [|d ds]; [congruence|].
    unfold ParseInt.
    assert (Hd : isDigit d = true) by (simpl in Hds; apply andb_prop in Hds; apply Hds).
    destruct (digit_classes d Hd) as (_ & _ & Hp & Hm).
    rewrite Hp, Hm. cbv zeta. simpl orb. cbv iota.
    rewrite ParseUint_digits by (try assumption; lia).
    assert (H : (2 ^ 63 <=? decimal (d :: ds)) = false) by (apply Z.leb_gt; lia).
    rewrite H. reflexivity.
  - unfold ParseInt.
    change (PLUS =? MINUS)%N with false. change (PLUS =? PLUS)%N with true.
    cbv zeta. simpl orb. cbv iota.
    rewrite ParseUint_digits by (try assumption; lia).
    assert (H : (2 ^ 63 <=? decimal ds) = false) by (apply Z.leb_gt; lia).
    rewrite H. reflexivity.
  - unfold ParseInt.
    change (MINUS =? MINUS)%N with true. change (MINUS =? PLUS)%N with false.
    cbv zeta. simpl orb. cbv iota.
    rewrite ParseUint_digits by (try assumption; lia).
    assert (H : (2 ^ 63 <? decimal ds) = false) by (apply Z.ltb_ge; lia).
    cbn [negb andb]. rewrite H. reflexivity.
Qed.

Lemma SkipSpace_loop_none (l : text) (cnt : Z) :
  noLead isSpace l = true -> cnt + Z.of_nat (length l) <= hugeWid ->
  SkipSpace_loop l cnt = inr (mkss l cnt).
Proof.
  intros Hl Hb.
  pose proof (SkipSpace_loop_blanks [] l cnt eq_refl Hl Hb) as H.
  simpl in H. rewrite Z.add_0_r in H. exact H.
Qed.

(** [scanInt] on a numeral. *)
Lemma scanInt_numeral (tok : text) (v : Z) (l : text) (cnt : Z) :
  Numeral tok v -> - 2 ^ 63 <= v < 2 ^ 63 -> noLead isDigit l = true ->
  cnt + Z.of_nat (length (tok ++ l)) <= hugeWid ->
  scanInt (mkss (tok ++ l) cnt) = inr (v, mkss l (cnt + Z.of_nat (length tok))).
Proof.
  intros Hn Hr Hl Hb.
  pose proof (ParseInt_numeral tok v Hn Hr) as Hparse.
  assert (Hrange : (- 2 ^ (intBits - 1) <=? v) && (v <? 2 ^ (intBits - 1)) = true).
  { change (intBits - 1) with 63. apply andb_true_intro.
    split; [apply Z.leb_le | apply Z.ltb_lt]; lia. }
  assert (Hdigits : forall d ds c0,
    isDigit d = true -> forallb isDigit ds = true ->
    c0 + Z.of_nat (length ((d :: ds) ++ l)) <= hugeWid ->
    fst (getRune (mkss ((d :: ds) ++ l) c0)) = Some d /\
    accept isDigit (mkss ((d :: ds) ++ l) c0) = (Some d, mkss (ds ++ l) (c0 + 1)) /\
    acceptDigits_loop (ds ++ l) (c0 + 1) =
      (ds, mkss l (c0 + Z.of_nat (length (d :: ds))))).
  { intros d ds c0 Hd Hds Hb0. simpl app in *. simpl length in Hb0.
    unfold accept, getRune. simpl input. simpl count.
    rewrite (limit_free c0 _ Hb0). simpl. rewrite Hd.
    repeat split.
    rewrite (acceptDigits_loop_digits ds l (c0 + 1) Hds Hl) by lia.
    f_equal. f_equal. lia. }
  destruct Hn as [ds v Hne Hds Hv|ds v Hne Hds Hv|ds v Hne Hds Hv].
  - destruct ds as [|d ds]; [congruence|].
    pose proof Hds as Hds'. simpl in Hds'. apply andb_prop in Hds'.
    destruct Hds' as [Hd Hds'].
    destruct (digit_classes d Hd) as (Hsp & Hsg & _ & _).
    destruct (Hdigits d ds cnt Hd Hds' Hb) as (Hg & Ha & Hloop).
    simpl app in *.
    unfold scanInt, SkipSpace. simpl input. simpl count.
    rewrite SkipSpace_loop_none by (simpl; try rewrite Hsp; auto).
    rewrite Hg.
    assert (Hacc : accept isSign (mkss (d :: ds ++ l) cnt)
                   = (None, mkss (d :: ds ++ l) cnt)).
    { unfold accept.
      destruct (getRune (mkss (d :: ds ++ l) cnt)) as [[x|] s'] eqn:E;
        [|reflexivity].
      simpl in Hg. injection Hg as ->. rewrite Hsg. reflexivity. }
    rewrite Hacc, Hg, Ha. simpl input. simpl count. rewrite Hloop.
    simpl app. rewrite Hparse, Hrange. reflexivity.
  - destruct ds as [|d ds]; [congruence|].
    pose proof Hds as Hds'. simpl in Hds'. apply andb_prop in Hds'.
    destruct Hds' as [Hd Hds'].
    simpl app in Hb. simpl length in Hb.
    destruct (Hdigits d ds (cnt + 1) Hd Hds') as (Hg & Ha & Hloop);
      [simpl app; simpl length; lia|].
    simpl app in *.
    unfold scanInt, SkipSpace. simpl input. simpl count.
    rewrite SkipSpace_loop_none by (simpl; auto; simpl length; lia).
    assert (Hacc : accept isSign (mkss (PLUS :: d :: ds ++ l) cnt)
                   = (Some PLUS, mkss (d :: ds ++ l) (cnt + 1))).
    { unfold accept, getRune. simpl input. simpl count.
      rewrite (limit_free cnt _ Hb). reflexivity. }
    assert (Hg0 : fst (getRune (mkss (PLUS :: d :: ds ++ l) cnt)) = Some PLUS).
    { unfold getRune. simpl input. simpl count.
      rewrite (limit_free cnt _ Hb). reflexivity. }
    rewrite Hg0, Hacc, Hg, Ha. simpl input. simpl count. rewrite Hloop.
    simpl app. rewrite Hparse, Hrange.
    f_equal. f_equal. f_equal. simpl length. lia.
  - destruct ds as [|d ds]; [congruence|].
    pose proof Hds as Hds'. simpl in Hds'. apply andb_prop in Hds'.
    destruct Hds' as [Hd Hds'].
    simpl app in Hb. simpl length in Hb.
    destruct (Hdigits d ds (cnt + 1) Hd Hds') as (Hg & Ha & Hloop);
      [simpl app; simpl length; lia|].
    simpl app in *.
    unfold scanInt, SkipSpace. simpl input. simpl count.
    rewrite SkipSpace_loop_none by (simpl; auto; simpl length; lia).
    assert (Hacc : accept isSign (mkss (MINUS :: d :: ds ++ l) cnt)
                   = (Some MINUS, mkss (d :: ds ++ l) (cnt + 1))).
    { unfold accept, getRune. simpl input. simpl count.
      rewrite (limit_free cnt _ Hb). reflexivity. }
    assert (Hg0 : fst (getRune (mkss (MINUS :: d :: ds ++ l) cnt)) = Some MINUS).
    { unfold getRune. simpl input. simpl count.
      rewrite (limit_free cnt _ Hb). reflexivity. }
    rewrite Hg0, Hacc, Hg, Ha. simpl input. simpl count. rewrite Hloop.
    simpl app. rewrite Hparse, Hrange.
    f_equal. f_equal. f_equal. simpl length. lia.
Qed.

(** ** [advance] and [doScanf] along an instance *)

Lemma spaceRun_blanks (sp : text) :
  forall f nl tr,
    forallb isBlank sp = true -> noLead isSpace f = true ->
    spaceRun (sp ++ f) nl tr =
    (nl, match sp with [] => tr | _ :: _ => true end, length sp).
Proof.
  induction sp as [|w sp IH]; intros f nl tr Hsp Hf.
  - destruct f as [|c f]; [reflexivity|]. simpl in *.
    apply negb_true_iff in Hf. rewrite Hf. reflexivity.
  - simpl in Hsp. apply andb_prop in Hsp. destruct Hsp as [Hw Hsp].
    apply isBlank_spec in Hw. destruct Hw as [Hs Hlf].
    simpl app. cbn [spaceRun]. rewrite Hs, Hlf, (IH f nl true Hsp Hf).
    destruct sp; reflexivity.
Qed.

Lemma space_not_percent (c : rune) : isSpace c = true -> (c =? PERCENT)%N = false.
Proof.
  intro H. destruct (c =? PERCENT)%N eqn:E; [|reflexivity].
  apply N.eqb_eq in E. subst c. discriminate.
Qed.

Lemma advance_lit (c : rune) (f l : text) (cnt : Z) :
  isSpace c = false -> c <> PERCENT ->
  cnt + Z.of_nat (length (c :: l)) <= hugeWid ->
  advance (c :: f) (mkss (c :: l) cnt) = shift 1 (advance f (mkss l (cnt + 1))).
Proof.
  intros Hs Hp Hb. unfold advance. cbn [length advance_loop].
  apply N.eqb_neq in Hp. rewrite Hs, Hp.
  unfold getRune. simpl input. simpl count.
  simpl length in Hb. rewrite (limit_free cnt _ Hb), N.eqb_refl.
  apply advance_loop_shift.
Qed.

Lemma skipn_app_exact (A : Type) (l1 l2 : list A) : skipn (length l1) (l1 ++ l2) = l2.
Proof. induction l1; simpl; auto. Qed.

Lemma advance_space (sp f ws l : text) (cnt : Z) :
  sp <> [] -> forallb isBlank sp = true -> noLead isSpace f = true ->
  ws <> [] -> forallb isBlank ws = true -> noLead isBlank l = true ->
  cnt + Z.of_nat (length (ws ++ l)) <= hugeWid ->
  advance (sp ++ f) (mkss (ws ++ l) cnt) =
  shift (length sp) (advance f (mkss l (cnt + Z.of_nat (length ws)))).
Proof.
  intros Hne Hsp Hf Hwne Hws Hl Hb. unfold advance.
  pose proof (spaceRun_blanks sp f O false Hsp Hf) as Hrun.
  destruct sp as [|w sp]; [congruence|].
  pose proof Hsp as Hw. simpl in Hw. apply andb_prop in Hw. destruct Hw as [Hw _].
  apply isBlank_spec in Hw. destruct Hw as [Hs _].
  change (length ((w :: sp) ++ f)) with (S (length (sp ++ f))).
  change ((w :: sp) ++ f) with (w :: (sp ++ f)) at 1.
  cbn [advance_loop]. rewrite Hs.
  change (w :: sp ++ f) with ((w :: sp) ++ f). rewrite Hrun.
  cbn [matchNewlines].
  rewrite (matchTrailing_blanks ws l cnt Hwne Hws Hl Hb).
  rewrite skipn_app_exact. rewrite advance_loop_shift.
  rewrite (advance_loop_fuel (length (sp ++ f)) (length f));
    [reflexivity | rewrite length_app; lia | lia].
Qed.

Lemma advance_mismatch_head (f : text) (s s' : ss) :
  noPP f = true -> advance f s = AdvMismatch s' ->
  exists c t, f = c :: t /\ (c =? PERCENT)%N = false.
Proof.
  intros Hpp H. destruct f as [|c t]; [discriminate|].
  exists c, t. split; [reflexivity|].
  unfold advance in H. cbn [length advance_loop] in H.
  destruct (isSpace c) eqn:Hs; [apply space_not_percent, Hs|].
  destruct (c =? PERCENT)%N eqn:Hc; [|reflexivity].
  destruct t as [|x t]; [discriminate|].
  simpl in Hpp. rewrite Hc in Hpp. simpl in Hpp. apply negb_true_iff in Hpp.
  rewrite Hpp in H. discriminate.
Qed.

Lemma advance_stop0 (f : text) (s s' : ss) :
  advance f s = AdvStop O s' -> s' = s.
Proof.
  unfold advance. destruct f as [|c t]; [simpl; congruence|].
  cbn [length advance_loop].
  destruct (isSpace c) eqn:Hs.
  - destruct (spaceRun_head c t O false Hs) as (nl & tr & n & Hrun & _).
    rewrite Hrun.
    destruct (matchNewlines nl s) as [e|s1]; [discriminate|].
    destruct (if tr then matchTrailing nl s1 else inr s1) as [e|s2];
      [discriminate|].
    rewrite advance_loop_shift.
    destruct (advance_loop _ _ O s2); simpl; discriminate.
  - destruct (c =? PERCENT)%N.
    + destruct t as [|x t]; [discriminate|].
      destruct (x =? PERCENT)%N; [|congruence].
      destruct (getRune s) as [[r|] s0]; [|discriminate].
      destruct (r =? c)%N; [|discriminate].
      rewrite advance_loop_shift.
      destruct (advance_loop _ _ O s0); simpl; discriminate.
    + destruct (getRune s) as [[r|] s0]; [|discriminate].
      destruct (r =? c)%N; [|discriminate].
      rewrite advance_loop_shift.
      destruct (advance_loop _ _ O s0); simpl; discriminate.
Qed.

(** When [advance] gets through [k] runes of the format and then does on
    the rest what it would do started there, [doScanf] goes on as if
    started on the rest. *)
Lemma doScanf_prefix (c : rune) (T f : text) (k : nat) (s s' : ss)
    (a : list field) (n : nat) (p : ProcStatus) :
  (c =? PERCENT)%N = false ->
  f = skipn k T ->
  advance (c :: T) s = shift (S k) (advance f s') ->
  noPP f = true ->
  doScanf_loop (length (c :: T)) (c :: T) a n s p =
  doScanf_loop (length f) f a n s' p.
Proof.
  intros Hc Hf Hadv Hpp.
  assert (Hlen : (length f <= length T)%nat)
    by (subst f; rewrite length_skipn; lia).
  cbn [length]. cbn [doScanf_loop]. rewrite Hadv, Hc.
  destruct (advance f s') as [w s''|s''|e|] eqn:Ef.
  - cbn [shift Nat.add].
    assert (Hskip : skipn (S (k + w)) (c :: T) = skipn w f).
    { subst f. rewrite skipn_skipn. cbn [skipn]. f_equal. lia. }
    rewrite Hskip.
    destruct w as [|w].
    + apply advance_stop0 in Ef. subst s''. cbn [skipn].
      apply doScanf_loop_fuel; lia.
    + destruct f as [|c1 t1]; [discriminate|].
      cbn [length] in *. cbn [doScanf_loop]. rewrite Ef.
      apply doScanf_loop_fuel; cbn [skipn]; rewrite length_skipn; lia.
  - cbn [shift].
    destruct (advance_mismatch_head f s' s'' Hpp Ef) as (c1 & t1 & -> & Hc1).
    cbn [length doScanf_loop]. rewrite Ef, Hc1. reflexivity.
  - cbn [shift].
    destruct f as [|c1 t1]; [discriminate|].
    cbn [length doScanf_loop]. rewrite Ef. reflexivity.
  - exfalso. apply (advance_not_fuel f s' Ef).
Qed.

Lemma Instance_noPP (f : text) (vs : list Z) (l : text) :
  Instance f vs l -> noPP f = true.
Proof.
  intro H. destruct H as [rest|c f vs l Hs Hp _|sp f vs ws l Hne Hsp _ _ _ _ _|].
  - reflexivity.
  - apply N.eqb_neq in Hp. destruct f; simpl; [reflexivity|]. rewrite Hp. reflexivity.
  - destruct sp as [|w sp]; [congruence|].
    simpl in Hsp. apply andb_prop in Hsp. destruct Hsp as [Hw _].
    apply isBlank_spec in Hw. destruct Hw as [Hw _].
    apply space_not_percent in Hw.
    simpl. destruct (sp ++ f); [reflexivity|]. rewrite Hw. reflexivity.
  - reflexivity.
Qed.

Lemma Numeral_head (tok : text) (v : Z) (l : text) :
  Numeral tok v -> noLead isSpace (tok ++ l) = true.
Proof.
  intro H. destruct H as [ds v Hne Hds _|ds v _ _ _|ds v _ _ _];
    try reflexivity.
  destruct ds as [|d ds]; [congruence|]. simpl in *.
  apply andb_prop in Hds. destruct Hds as [Hd _].
  destruct (digit_classes d Hd) as (-> & _). reflexivity.
Qed.

(** On a line that carries an instance of the format, [doScanf] stores the
    values of the instance and reports no error. *)
Lemma doScanf_Instance (f : text) (vs : list Z) (l : text) :
  Instance f vs l ->
  forall a n cnt p,
    cnt + Z.of_nat (length l) <= hugeWid ->
    (n + length vs = length a)%nat ->
    doScanf_loop (length f) f a n (mkss l cnt) p =
    Some (stores (skipn n a) vs p, length a, None).
Proof.
  intro H.
  induction H as [rest
                 |c f vs l Hs Hp Hi IH
                 |sp f vs ws l Hne Hsp Hf Hwne Hws Hl Hi IH
                 |f vs ws tok v l Hws Hnum Hr Hl Hi IH];
    intros a n cnt p Hb Hn.
  - simpl. unfold doScanf_end. simpl in Hn. rewrite Nat.add_0_r in Hn. subst n.
    rewrite Nat.ltb_irrefl, stores_nil_r. reflexivity.
  - rewrite (doScanf_prefix c f f O (mkss (c :: l) cnt) (mkss l (cnt + 1))).
    + apply IH; [simpl length in Hb; lia | exact Hn].
    + apply N.eqb_neq, Hp.
    + reflexivity.
    + apply advance_lit; assumption.
    + apply (Instance_noPP _ _ _ Hi).
  - destruct sp as [|w sp]; [congruence|].
    change ((w :: sp) ++ f) with (w :: (sp ++ f)).
    rewrite (doScanf_prefix w (sp ++ f) f (length sp) (mkss (ws ++ l) cnt)
               (mkss l (cnt + Z.of_nat (length ws)))).
    + apply IH; [rewrite length_app in Hb; lia | exact Hn].
    + simpl in Hsp. apply andb_prop in Hsp. destruct Hsp as [Hw _].
      apply isBlank_spec in Hw. apply space_not_percent, Hw.
    + symmetry. apply skipn_app_exact.
    + apply (advance_space (w :: sp) f ws l cnt); assumption.
    + apply (Instance_noPP _ _ _ Hi).
  - assert (Hadv : advance (PERCENT :: VERB_d :: f) (mkss (ws ++ tok ++ l) cnt)
                   = AdvStop O (mkss (ws ++ tok ++ l) cnt)) by reflexivity.
    cbn [length]. remember (S (length f)) as m eqn:Hm.
    cbn [doScanf_loop]. rewrite Hadv.
    change (PERCENT =? PERCENT)%N with true.
    change (VERB_d =? VERB_d)%N with true. cbv iota.
    unfold SkipSpace. simpl input. simpl count.
    rewrite (SkipSpace_loop_blanks ws (tok ++ l) cnt Hws
               (Numeral_head tok v l Hnum) Hb).
    simpl length in Hn.
    destruct (nth_error a n) as [arg|] eqn:Harg;
      [|apply nth_error_None in Harg; lia].
    rewrite !length_app in Hb.
    rewrite (scanInt_numeral tok v l (cnt + Z.of_nat (length ws)) Hnum Hr Hl)
      by (rewrite length_app; lia).
    subst m. rewrite (doScanf_loop_fuel (S (length f)) (length f)) by lia.
    rewrite IH by lia.
    rewrite (skipn_nth_error _ _ _ _ Harg). reflexivity.
Qed.

(** [Sscanf] on a line that carries an instance of the format. *)
Lemma Sscanf_Instance (line f : text) (a : list field) (vs : list Z)
    (p : ProcStatus) :
  Instance f vs line -> length vs = length a ->
  Z.of_nat (length line) <= hugeWid ->
  Sscanf line f a p = Some (stores a vs p, length a, None).
Proof.
  intros Hi Hlen Hb. unfold Sscanf.
  apply (doScanf_Instance f vs line Hi a O 0 p); [lia | exact Hlen].
Qed.

Lemma verbs_blanks (sp f : text) :
  forallb isBlank sp = true -> verbs (sp ++ f) = verbs f.
Proof.
  intro H. induction sp as [|w sp IH]; [reflexivity|].
  simpl in H. apply andb_prop in H. destruct H as [Hw H].
  apply isBlank_spec in Hw. destruct Hw as [Hw _].
  apply space_not_percent, N.eqb_neq in Hw.
  unfold verbs in *. simpl. destruct (N.eq_dec w PERCENT); [contradiction|].
  apply IH, H.
Qed.

Lemma Instance_verbs (f : text) (vs : list Z) (l : text) :
  Instance f vs l -> length vs = verbs f.
Proof.
  intro H. induction H as [rest
                          |c f vs l Hs Hp Hi IH
                          |sp f vs ws l Hne Hsp Hf Hwne Hws Hl Hi IH
                          |f vs ws tok v l Hws Hnum Hr Hl Hi IH].
  - reflexivity.
  - unfold verbs in *. simpl. destruct (N.eq_dec c PERCENT); [contradiction|].
    exact IH.
  - rewrite verbs_blanks by assumption. exact IH.
  - unfold verbs in *. simpl. rewrite IH. reflexivity.
Qed.

Lemma scanners_verbs :
  Forall (fun s => verbs (format s) = length (args s))
         (scanners newProcStatusBuilder).
Proof. repeat constructor. Qed.

(** C9. Matching is a match of a prefix.  A line that begins with an
    instance of the template of a scanner of the table (the label, blanks,
    the numerals) is accepted, and the values of the numerals are stored,
    whatever text follows the instance on the line. *)
Theorem Sscanf_prefix_match (s : procStatusScanner) (line : text)
    (vs : list Z) (p : ProcStatus) :
  In s (scanners newProcStatusBuilder) ->
  Instance (format s) vs line ->
  Z.of_nat (length line) <= hugeWid ->
  Sscanf line (format s) (args s) p =
  Some (stores (args s) vs p, length (args s), None).
Proof.
  intros Hin Hi Hb. apply Sscanf_Instance; try assumption.
  rewrite (Instance_verbs _ _ _ Hi).
  apply (proj1 (Forall_forall _ _) scanners_verbs s Hin).
Qed.

Lemma Sscanf_prefix_match_witness :
  Sscanf (runes "Pid: 123 extra" ++ [LF]) (runes "Pid: %d") [pTID] ProcStatusZero
  = Some (store pTID 123 ProcStatusZero, 1%nat, None).
Proof.
  apply (Sscanf_prefix_match (mkScanner (runes "Pid: %d") [pTID])
           (runes "Pid: 123 extra" ++ [LF]) [123] ProcStatusZero).
  - simpl. left. reflexivity.
  - instance_of_line.
  - vm_compute. discriminate.
Defined.

(** ** Well-formed files *)

Lemma splitDelim_first (body rest : text) :
  noLF body = true ->
  splitDelim LF (body ++ LF :: rest) = Some (body ++ [LF], rest).
Proof.
  intro H. induction body as [|c body IH]; [reflexivity|].
  simpl in *. apply andb_prop in H. destruct H as [Hc H].
  apply negb_true_iff in Hc. rewrite Hc, (IH H). reflexivity.
Qed.

Lemma ReadString_first (body rest : text) (e : error) :
  noLF body = true ->
  ReadString (mkReader (body ++ LF :: rest) e) LF =
  ((body ++ [LF], None), mkReader rest e).
Proof.
  intro H. unfold ReadString. simpl data.
  rewrite (splitDelim_first body rest H). reflexivity.
Qed.

Lemma matches_false (s : procStatusScanner) (line : text) (p : ProcStatus) :
  supported (format s) = true -> matches s line = false ->
  exists vs n err, Sscanf line (format s) (args s) p =
                   Some (stores (args s) vs p, n, Some err).
Proof.
  intros Hsup Hm. unfold matches in Hm.
  pose proof (Sscanf_total line (format s) (args s) ProcStatusZero Hsup) as Ht.
  destruct (Sscanf line (format s) (args s) ProcStatusZero) as [r|] eqn:Hs;
    [|congruence].
  destruct (Sscanf_stores _ _ _ _ _ Hs) as (vs & e & _ & _ & H3).
  rewrite (H3 ProcStatusZero) in Hs. injection Hs as <-.
  destruct e as [err|]; [|discriminate].
  exists vs, (length vs), err. apply H3.
Qed.

Lemma readScanners_WellFormed (l : list procStatusScanner)
    (vss : list (list Z)) (d : text) (e : error) :
  WellFormed l vss d ->
  Forall (fun s => supported (format s) = true) l ->
  Forall (fun s => verbs (format s) = length (args s)) l ->
  forall p p0,
    match l with
    | s :: _ => agree_outside (args s) p0 p
    | [] => p0 = p
    end ->
    readScanners l (mkReader d e) p0 = Some (storesAll l vss p, None).
Proof.
  intro H.
  induction H as [rest
                 |s l vss body rest Hnl Hm Hw IH
                 |s l vs vss body rest Hnl Hi Hb Hw IH];
    intros Hsup Hverbs p p0 Hag.
  - subst. reflexivity.
  - rewrite readScanners_step, (ReadString_first body rest e Hnl).
    destruct (matches_false s (body ++ [LF]) p0 (Forall_inv Hsup) Hm)
      as (ws & n & err & ->).
    apply IH; try assumption. apply stores_agree_outside, Hag.
  - rewrite readScanners_step, (ReadString_first body rest e Hnl).
    assert (Hlen : length vs = length (args s)).
    { rewrite (Instance_verbs _ _ _ Hi). apply (Forall_inv Hverbs). }
    rewrite (Sscanf_Instance (body ++ [LF]) (format s) (args s) vs p0 Hi Hlen)
      by (rewrite length_app; simpl length; lia).
    cbn [storesAll].
    rewrite (stores_agree_full (args s) vs p0 p Hlen Hag).
    apply IH; [apply (Forall_inv_tail Hsup) | apply (Forall_inv_tail Hverbs)|].
    destruct l; [reflexivity | intros q _; reflexivity].
Qed.

(** C2, as the code has it.  The table has 18 scanners.  For a file that
    holds the 18 labelled lines in the order of the table, every line ended
    by a newline, every value within the range of [int], and before each
    labelled line only lines that the scanner then pending does not accept,
    the parse succeeds and every field of the record is the value on its
    line. *)
Theorem readStatus_well_formed (d : text) (e : error)
    (tid tracer ur ue us uf gr ge gs gf fdsize
     peak size lck hwm rss dat stk exe lib pte swap vol nonvol : Z) :
  WellFormed (scanners newProcStatusBuilder)
    [ [tid]; [tracer]; [ur; ue; us; uf]; [gr; ge; gs; gf]; [fdsize];
      [peak]; [size]; [lck]; [hwm]; [rss]; [dat]; [stk]; [exe]; [lib];
      [pte]; [swap]; [vol]; [nonvol] ] d ->
  length (scanners newProcStatusBuilder) = 18%nat /\
  readStatus newProcStatusBuilder (mkReader d e) =
  Some (mkProcStatus tid tracer ur ue us uf gr ge gs gf fdsize
          peak size lck hwm rss dat stk exe lib pte swap vol nonvol, None).
Proof.
  intro H. split; [reflexivity|].
  unfold readStatus. change (ps newProcStatusBuilder) with ProcStatusZero.
  rewrite (readScanners_WellFormed _ _ _ e H scanners_supported scanners_verbs
             ProcStatusZero ProcStatusZero)
    by (intros q _; reflexivity).
  reflexivity.
Qed.

Lemma readStatus_well_formed_witness :
  length (scanners newProcStatusBuilder) = 18%nat /\
  readStatus newProcStatusBuilder (mkReader sampleStatus EOF) =
  Some (sampleRecord, None).
Proof.
  apply (readStatus_well_formed sampleStatus EOF
           1234 0 1000 1000 1000 1000 100 100 100 100 256
           10000 9000 0 5000 4000 300 132 900 2000 60 0 150 7).
  well_formed_file.
Defined.

(** C2 as it is stated fails twice.  A file with 17 of the labelled lines
    (here all but the last one) does not parse.  And an extra line is not
    arbitrary: one that the pending scanner accepts (here a line that
    begins like the [Pid] line, put before it) gives the field its own
    value, not the value of the labelled line. *)
Lemma readStatus_well_formed_counterexample :
  readStatus newProcStatusBuilder
    (mkReader (joinLines (sampleHead ++ sampleBody)) EOF)
  = Some (ProcStatusZero, Some EOF) /\
  readStatus newProcStatusBuilder
    (mkReader (joinLines (sampleHead ++ [runes "Pid: 7 (not the pid line)"]
                          ++ sampleBody ++ [sampleLast])) EOF)
  = Some (store pTID 7 sampleRecord, None) /\
  TID (store pTID 7 sampleRecord) <> TID sampleRecord.
Proof. repeat split; try (vm_compute; reflexivity). discriminate. Qed.

(** ** Calls do not depend on one another *)

(** The parse does not depend on what the record holds behind the pointers
    of the scanners still to come. *)
Lemma readScanners_cover :
  forall l r p1 p2,
    agree_outside (concat (map args l)) p1 p2 ->
    readScanners l r p1 = readScanners l r p2.
Proof.
  apply (readScanners_ind (fun l r p1 =>
    forall p2, agree_outside (concat (map args l)) p1 p2 ->
               readScanners l r p1 = readScanners l r p2)).
  - intros r p1 p2 Hag. simpl. do 2 f_equal.
    apply ProcStatus_ext. intro q. apply Hag. intros [].
  - intros s l r p1 Hm Hn p2 Hag. rewrite !readScanners_step.
    destruct (ReadString r LF) as [[line [e|]] r'] eqn:Hr; [reflexivity|].
    destruct (Sscanf line (format s) (args s) p1) as [r0|] eqn:Hs.
    + destruct (Sscanf_stores _ _ _ _ _ Hs) as (vs & e & _ & Hfull & H3).
      rewrite (H3 p1) in Hs. injection Hs as <-. rewrite (H3 p2).
      destruct e as [e|].
      * apply (Hn _ _ _ _ _ eq_refl (H3 p1)).
        intros q Hq. simpl in Hag.
        assert (Hqa : ~ In q (args s)).
        { intro Hin. apply Hq. simpl. apply in_or_app. left. exact Hin. }
        rewrite !load_stores_notin by exact Hqa.
        apply Hag. exact Hq.
      * apply (Hm _ _ _ _ eq_refl (H3 p1)).
        intros q Hq. destruct (in_dec field_eq_dec q (args s)) as [Hin|Hnin].
        -- apply load_stores_full; [apply Hfull; reflexivity | exact Hin].
        -- rewrite !load_stores_notin by exact Hnin.
           apply Hag. simpl. intro Hin. apply in_app_or in Hin. tauto.
    + rewrite (Sscanf_none_any _ _ _ _ p2 Hs). reflexivity.
Qed.

(** Every field of the record is the target of a scanner of the table. *)
Lemma scanners_cover (q : field) :
  In q (concat (map args (scanners newProcStatusBuilder))).
Proof. destruct q; simpl; repeat (first [left; reflexivity | right]). Qed.

(** C8. [NewStatus] is determined by what the file holds: two calls that
    find the same content (or the same failure to open) return the same
    record and the same error.  Each call works on the builder
    [newProcStatusBuilder] makes for it; and even the record a previous
    parse left behind in a builder would not show: with the scanners of the
    table the result does not depend on the record the builder starts
    with. *)
Theorem NewStatus_deterministic (opened1 opened2 : error + Reader)
    (left_over : ProcStatus) :
  opened1 = opened2 ->
  NewStatus opened1 = NewStatus opened2 /\
  forall r, opened2 = inr r ->
    readStatus (mkBuilder left_over (scanners newProcStatusBuilder)) r
    = NewStatus opened1.
Proof.
  intros ->. split; [reflexivity|]. intros r ->.
  unfold NewStatus, readStatus. simpl ps. simpl scanners.
  apply readScanners_cover. intros q Hq. exfalso. apply Hq, scanners_cover.
Qed.

Lemma NewStatus_deterministic_witness :
  NewStatus (inr (mkReader sampleStatus EOF)) = Some (sampleRecord, None) /\
  NewStatus (inr (mkReader sampleStatus EOF))
  = NewStatus (inr (mkReader sampleStatus EOF)) /\
  forall r, @inr error Reader (mkReader sampleStatus EOF) = inr r ->
    readStatus (mkBuilder (store pTID 99 sampleRecord)
                  (scanners newProcStatusBuilder)) r
    = NewStatus (inr (mkReader sampleStatus EOF)).
Proof.
  split; [vm_compute; reflexivity|].
  apply (NewStatus_deterministic (inr (mkReader sampleStatus EOF))
           (inr (mkReader sampleStatus EOF)) (store pTID 99 sampleRecord)).
  reflexivity.
Defined.

(** ** The variable-arity lines *)

Lemma fieldsFrom_token (t : text) :
  forall cur rest,
    forallb (fun c => negb (isSpace c)) t = true ->
    fieldsFrom cur (t ++ rest) = fieldsFrom (cur ++ t) rest.
Proof.
  induction t as [|c t IH]; intros cur rest H.
  - rewrite app_nil_r. reflexivity.
  - simpl in H. apply andb_prop in H. destruct H as [Hc H].
    apply negb_true_iff in Hc. simpl. rewrite Hc, (IH _ _ H), <- app_assoc.
    reflexivity.
Qed.

Lemma tokenb_spec (t : text) :
  tokenb t = true ->
  t <> [] /\ forallb (fun c => negb (isSpace c)) t = true.
Proof.
  unfold tokenb. intro H. apply andb_prop in H. destruct H as [Hne H].
  split; [|exact H]. intros ->. discriminate.
Qed.

Lemma Fields_joinSP (ts : list text) :
  forallb tokenb ts = true -> Fields (joinSP ts) = ts.
Proof.
  unfold Fields. induction ts as [|t ts IH]; intro H; [reflexivity|].
  simpl in H. apply andb_prop in H. destruct H as [Ht H].
  apply tokenb_spec in Ht. destruct Ht as [Hne Hns].
  destruct ts as [|t2 ts].
  - simpl. rewrite <- (app_nil_r t) at 1.
    rewrite (fieldsFrom_token t [] [] Hns). simpl.
    destruct t; [congruence | reflexivity].
  - change (joinSP (t :: t2 :: ts)) with (t ++ SP :: joinSP (t2 :: ts)).
    rewrite (fieldsFrom_token t [] _ Hns). cbn [app fieldsFrom].
    change (isSpace SP) with true. cbv iota.
    rewrite (IH H). destruct t; [congruence | reflexivity].
Qed.

Lemma numericb_spec (t : text) :
  numericb t = true ->
  t <> [] /\ forallb isDigit t = true /\ decimal t < 2 ^ 64.
Proof.
  unfold numericb. intro H. apply andb_prop in H. destruct H as [H Hr].
  apply andb_prop in H. destruct H as [Hne Hd]. apply Z.ltb_lt in Hr.
  repeat split; try assumption. intros ->. discriminate.
Qed.

Lemma numericb_tokenb (t : text) : numericb t = true -> tokenb t = true.
Proof.
  intro H. unfold tokenb. unfold numericb in H.
  apply andb_prop in H. destruct H as [H _].
  apply andb_prop in H. destruct H as [Hne Hd]. rewrite Hne. simpl.
  clear Hne. induction t as [|c t IH]; [reflexivity|].
  simpl in *. apply andb_prop in Hd. destruct Hd as [Hc Hd].
  destruct (digit_classes c Hc) as (-> & _). simpl. apply IH, Hd.
Qed.

Lemma numeric_tokens (ts : list text) :
  forallb numericb ts = true -> forallb tokenb ts = true.
Proof.
  induction ts as [|t ts IH]; intro H; [reflexivity|].
  simpl in *. apply andb_prop in H. destruct H as [Ht H].
  rewrite (numericb_tokenb t Ht), (IH H). reflexivity.
Qed.

Lemma parseUint64_numeric (t : text) :
  numericb t = true -> parseUint64 t = Some (decimal t).
Proof.
  intro H. apply numericb_spec in H. destruct H as (Hne & Hd & Hr).
  unfold parseUint64. rewrite ParseUint_digits by assumption. reflexivity.
Qed.

Lemma parseCounters_numeric (known : list text) :
  forall rest, forallb numericb known = true ->
    parseCounters (length known) (known ++ rest) = Some (map decimal known).
Proof.
  induction known as [|t known IH]; intros rest H; [reflexivity|].
  simpl in H. apply andb_prop in H. destruct H as [Ht H].
  simpl. rewrite (parseUint64_numeric t Ht), (IH rest H). reflexivity.
Qed.

Lemma counter_map (toks : list text) (i : nat) :
  counter (map decimal toks) i = decimal (nth i toks []).
Proof. exact (map_nth decimal toks [] i). Qed.

(** C3. A line made of the tag [proc3], the count 22 and 22 numerals gives
    the record whose [Values] is 22 and whose 22 counters, in the order of
    the declaration, are the values of the numerals. *)
Theorem proc3_line (toks : list text) :
  length toks = 22%nat -> forallb numericb toks = true ->
  let d i := decimal (nth i toks []) in
  parseNFSdLine (joinSP (runes "proc3" :: runes "22" :: toks)) =
  Some (LineProc3
    (NFSdv3Stats.mk 22
       (d 0%nat) (d 1%nat) (d 2%nat) (d 3%nat) (d 4%nat) (d 5%nat) (d 6%nat)
       (d 7%nat) (d 8%nat) (d 9%nat) (d 10%nat) (d 11%nat) (d 12%nat)
       (d 13%nat) (d 14%nat) (d 15%nat) (d 16%nat) (d 17%nat) (d 18%nat)
       (d 19%nat) (d 20%nat) (d 21%nat))).
Proof.
  intros Hlen Hnum d. unfold parseNFSdLine.
  rewrite Fields_joinSP
    by (change (forallb tokenb toks = true); apply numeric_tokens, Hnum).
  change (text_eqb (runes "proc3") (runes "proc3")) with true. cbv iota.
  unfold parseVariable.
  change (parseUint64 (runes "22")) with (Some 22). cbv beta iota.
  change (Z.to_nat (Z.min 22 (Z.of_nat 22))) with 22%nat.
  assert (Hpc : parseCounters 22 toks = Some (map decimal toks)).
  { rewrite <- Hlen. pose proof (parseCounters_numeric toks [] Hnum) as H.
    rewrite app_nil_r in H. exact H. }
  rewrite Hpc.
  unfold NFSdv3Stats_of. rewrite !counter_map. reflexivity.
Qed.

(** C4. A [proc4ops] line whose count [Values] is above the 38 operations
    the record knows is parsed without error: [Values] is the count of the
    line, the 38 counters are the values of the first 38 numerals in the
    order of the declaration, and the tokens after them are ignored. *)
Theorem proc4ops_excess (vtok : text) (known excess : list text) :
  numericb vtok = true -> 38 < decimal vtok ->
  length known = 38%nat -> forallb numericb known = true ->
  forallb tokenb excess = true ->
  let d i := decimal (nth i known []) in
  parseNFSdLine (joinSP (runes "proc4ops" :: vtok :: known ++ excess)) =
  Some (LineProc4Ops
    (NFSdv4Ops.mk (decimal vtok)
       (d 0%nat) (d 1%nat) (d 2%nat) (d 3%nat) (d 4%nat) (d 5%nat) (d 6%nat)
       (d 7%nat) (d 8%nat) (d 9%nat) (d 10%nat) (d 11%nat) (d 12%nat)
       (d 13%nat) (d 14%nat) (d 15%nat) (d 16%nat) (d 17%nat) (d 18%nat)
       (d 19%nat) (d 20%nat) (d 21%nat) (d 22%nat) (d 23%nat) (d 24%nat)
       (d 25%nat) (d 26%nat) (d 27%nat) (d 28%nat) (d 29%nat) (d 30%nat)
       (d 31%nat) (d 32%nat) (d 33%nat) (d 34%nat) (d 35%nat) (d 36%nat)
       (d 37%nat))).
Proof.
  intros Hv Hgt Hlen Hnum Hex d. unfold parseNFSdLine.
  rewrite Fields_joinSP.
  2:{ change (tokenb vtok && forallb tokenb (known ++ excess) = true).
      rewrite (numericb_tokenb vtok Hv), forallb_app,
              (numeric_tokens known Hnum), Hex. reflexivity. }
  change (text_eqb (runes "proc4ops") (runes "proc3")) with false.
  change (text_eqb (runes "proc4ops") (runes "proc4ops")) with true. cbv iota.
  unfold parseVariable. rewrite (parseUint64_numeric vtok Hv).
  rewrite Z.min_r by (change (Z.of_nat 38) with 38; lia).
  rewrite Nat2Z.id, <- Hlen.
  rewrite (parseCounters_numeric known excess Hnum).
  unfold NFSdv4Ops_of. rewrite !counter_map. reflexivity.
Qed.

Lemma proc3_line_witness :
  parseNFSdLine
    (runes "proc3 22 1 2 3 4 5 6 7 8 9 10 11 12 13 14 15 16 17 18 19 20 21 22")
  = Some (LineProc3 (NFSdv3Stats.mk 22
      1 2 3 4 5 6 7 8 9 10 11 12 13 14 15 16 17 18 19 20 21 22)).
Proof.
  exact (proc3_line
           (map runes ["1"; "2"; "3"; "4"; "5"; "6"; "7"; "8"; "9"; "10"; "11"; "12"; "13";
                     "14"; "15"; "16"; "17"; "18"; "19"; "20"; "21"; "22"]%string)
           eq_refl eq_refl).
Defined.

Lemma proc4ops_excess_witness :
  parseNFSdLine
    (runes "proc4ops 39 1 2 3 4 5 6 7 8 9 10 11 12 13 14 15 16 17 18 19 20 21 22 23 24 25 26 27 28 29 30 31 32 33 34 35 36 37 38 39")
  = Some (LineProc4Ops (NFSdv4Ops.mk 39
      1 2 3 4 5 6 7 8 9 10 11 12 13 14 15 16 17 18 19 20 21 22 23 24 25 26
      27 28 29 30 31 32 33 34 35 36 37 38)).
Proof.
  exact (proc4ops_excess (runes "39")
           (map runes ["1"; "2"; "3"; "4"; "5"; "6"; "7"; "8"; "9"; "10"; "11"; "12"; "13";
                     "14"; "15"; "16"; "17"; "18"; "19"; "20"; "21"; "22"; "23"; "24";
                     "25"; "26"; "27"; "28"; "29"; "30"; "31"; "32"; "33"; "34"; "35";
                     "36"; "37"; "38"]%string)
           [runes "39"] eq_refl eq_refl eq_refl eq_refl eq_refl).
Defined.

(** ** Which lines a scanner accepts *)

Lemma getRune_cons (c : rune) (l : text) (cnt : Z) :
  cnt + Z.of_nat (length (c :: l)) <= hugeWid ->
  getRune (mkss (c :: l) cnt) = (Some c, mkss l (cnt + 1)).
Proof.
  intro Hb. unfold getRune. simpl input. simpl count.
  simpl length in Hb. rewrite (limit_free cnt _ Hb). reflexivity.
Qed.

Lemma doScanf_label (f : text) (a : list field) (n n' : nat) (l : text)
    (cnt : Z) (p p' : ProcStatus) :
  doScanf_loop (length f) f a n (mkss l cnt) p = Some (p', n', None) ->
  prefixb (label f) l = true.
Proof.
  intro H. destruct (prefixb (label f) l) eqn:Hp; [reflexivity|].
  exfalso. destruct f as [|c t]; [discriminate|].
  pose proof (advance_loop_label (c :: t) (length (c :: t)) O l cnt
                (Nat.le_refl _) Hp) as Hadv.
  fold (advance (c :: t) (mkss l cnt)) in Hadv.
  cbn [length doScanf_loop] in H.
  simpl in Hp.
  destruct (isSpace c); [discriminate|].
  destruct (c =? PERCENT)%N eqn:Hc; [discriminate|].
  destruct (advance (c :: t) (mkss l cnt)) as [w s'|s'|e|];
    try contradiction; discriminate.
Qed.

(** A text splits into its longest head of runes of a class and the rest. *)
Lemma class_split (P : rune -> bool) (l : text) :
  exists a b, l = a ++ b /\ forallb P a = true /\ noLead P b = true.
Proof.
  induction l as [|c l IH].
  - exists [], []. repeat split.
  - destruct (P c) eqn:Hc.
    + destruct IH as (a & b & -> & Ha & Hb).
      exists (c :: a), b. simpl. rewrite Hc, Ha. repeat split. exact Hb.
    + exists [], (c :: l). simpl. rewrite Hc. repeat split.
Qed.

Lemma plain_supported (f : text) : plain f = true -> supported f = true.
Proof.
  assert (H : forall m f, (length f <= m)%nat ->
                          plain f = true -> supported f = true).
  { induction m as [|m IH]; intros [|c t] Hm Hp; try reflexivity;
      [simpl in Hm; lia|].
    simpl in Hm. cbn [plain] in Hp. cbn [supported].
    destruct (isSpace c) eqn:Hs.
    - rewrite (space_not_percent c Hs). simpl.
      apply andb_prop in Hp. destruct Hp as [_ Hp].
      apply IH; [lia | exact Hp].
    - destruct (c =? PERCENT)%N.
      + destruct t as [|d t']; [discriminate|].
        apply andb_prop in Hp. destruct Hp as [Hd Hp]. rewrite Hd. simpl.
        cbn [supported].
        assert (Hdp : (d =? PERCENT)%N = false).
        { apply N.eqb_eq in Hd. subst d. reflexivity. }
        rewrite Hdp. simpl. apply IH; [simpl in *; lia | exact Hp].
      + simpl. apply IH; [lia | exact Hp]. }
  apply (H (length f) f (Nat.le_refl _)).
Qed.

Lemma blank_CR (r : rune) : (r =? CR)%N = true -> isBlank r = true.
Proof. intro H. apply N.eqb_eq in H. subst r. reflexivity. Qed.

(** What [SkipSpace] has skipped when it returns. *)
Lemma SkipSpace_loop_inv (l : text) :
  forall cnt s1,
    cnt + Z.of_nat (length l) <= hugeWid ->
    SkipSpace_loop l cnt = inr s1 ->
    exists ws l1,
      l = ws ++ l1 /\ forallb isBlank ws = true /\ noLead isSpace l1 = true /\
      s1 = mkss l1 (cnt + Z.of_nat (length ws)).
Proof.
  induction l as [|x r IH]; intros cnt s1 Hb H.
  - exists [], []. simpl in *. rewrite Z.add_0_r.
    destruct (hugeWid <=? cnt); injection H as <-; repeat split.
  - cbn [SkipSpace_loop] in H. simpl length in Hb.
    rewrite (limit_free cnt _ Hb) in H.
    assert (Hrec : forall s, isBlank x = true ->
              SkipSpace_loop r (cnt + 1) = inr s ->
              exists ws l1,
                x :: r = ws ++ l1 /\ forallb isBlank ws = true /\
                noLead isSpace l1 = true /\
                s = mkss l1 (cnt + Z.of_nat (length ws))).
    { intros s Hx Hs.
      destruct (IH (cnt + 1) s) as (ws & l1 & -> & Hws & Hl1 & ->);
        [lia | exact Hs |].
      exists (x :: ws), l1. simpl. rewrite Hx, Hws. repeat split; try assumption.
      f_equal. lia. }
    destruct ((x =? CR)%N && peek (fun c => (c =? LF)%N) (mkss r (cnt + 1))) eqn:Hcr.
    + apply andb_prop in Hcr. apply (Hrec s1 (blank_CR x (proj1 Hcr)) H).
    + destruct (x =? LF)%N eqn:Hlf; [discriminate|].
      destruct (isSpace x) eqn:Hsp.
      * apply (Hrec s1); [unfold isBlank; rewrite Hsp, Hlf; reflexivity | exact H].
      * injection H as <-. exists [], (x :: r). simpl. rewrite Hsp, Z.add_0_r.
        repeat split.
Qed.

Lemma ParseInt_plain_inv (ds : text) (i : Z) :
  ds <> [] -> forallb isDigit ds = true -> ParseInt ds = inr i -> i = decimal ds.
Proof.
  intros Hne Hds H. destruct ds as [|d ds]; [congruence|].
  assert (Hd : isDigit d = true) by (simpl in Hds; apply andb_prop in Hds; apply Hds).
  destruct (digit_classes d Hd) as (_ & _ & Hp & Hm).
  unfold ParseInt in H. rewrite Hp, Hm in H. cbv zeta in H. simpl orb in H.
  cbv iota in H. unfold ParseUint in H. rewrite Hds in H. cbv zeta in H.
  destruct (2 ^ 64 <=? decimal (d :: ds)); [discriminate|].
  cbn [negb andb] in H.
  destruct (2 ^ 63 <=? decimal (d :: ds)); [discriminate|].
  injection H as <-. reflexivity.
Qed.

Lemma ParseInt_plus_inv (ds : text) (i : Z) :
  ds <> [] -> forallb isDigit ds = true ->
  ParseInt (PLUS :: ds) = inr i -> i = decimal ds.
Proof.
  intros Hne Hds H. unfold ParseInt in H.
  change (PLUS =? MINUS)%N with false in H.
  change (PLUS =? PLUS)%N with true in H.
  cbv zeta in H. simpl orb in H. cbv iota in H.
  unfold ParseUint in H. destruct ds as [|d ds]; [congruence|].
  rewrite Hds in H. cbv zeta in H.
  destruct (2 ^ 64 <=? decimal (d :: ds)); [discriminate|].
  cbn [negb andb] in H.
  destruct (2 ^ 63 <=? decimal (d :: ds)); [discriminate|].
  injection H as <-. reflexivity.
Qed.

Lemma ParseInt_minus_inv (ds : text) (i : Z) :
  ds <> [] -> forallb isDigit ds = true ->
  ParseInt (MINUS :: ds) = inr i -> i = - decimal ds.
Proof.
  intros Hne Hds H. unfold ParseInt in H.
  change (MINUS =? MINUS)%N with true in H.
  change (MINUS =? PLUS)%N with false in H.
  cbv zeta in H. simpl orb in H. cbv iota in H.
  unfold ParseUint in H. destruct ds as [|d ds]; [congruence|].
  rewrite Hds in H. cbv zeta in H.
  destruct (2 ^ 64 <=? decimal (d :: ds)); [discriminate|].
  cbn [negb andb] in H.
  destruct (2 ^ 63 <? decimal (d :: ds)); [discriminate|].
  injection H as <-. reflexivity.
Qed.

Lemma getRune_nil (cnt : Z) : getRune (mkss [] cnt) = (None, mkss [] cnt).
Proof. unfold getRune. simpl. destruct (hugeWid <=? cnt); reflexivity. Qed.

(** What [scanInt] has read when it returns a value. *)
Lemma scanInt_inv (l1 : text) (cnt v : Z) (s2 : ss) :
  noLead isSpace l1 = true ->
  cnt + Z.of_nat (length l1) <= hugeWid ->
  scanInt (mkss l1 cnt) = inr (v, s2) ->
  exists tok l',
    l1 = tok ++ l' /\ Numeral tok v /\ - 2 ^ 63 <= v < 2 ^ 63 /\
    noLead isDigit l' = true /\
    s2 = mkss l' (cnt + Z.of_nat (length tok)).
Proof.
  intros Hsp Hb H.
  assert (Hfin : forall sgn d ds l' c0 tok,
    tok = match sgn with Some c => [c] | None => [] end ++ d :: ds ->
    match ParseInt tok with
    | inl e => inl e
    | inr i =>
      if (- 2 ^ (intBits - 1) <=? i) && (i <? 2 ^ (intBits - 1))
      then inr (i, mkss l' c0)
      else inl (ErrScan "integer overflow on token")
    end = inr (v, s2) ->
    ParseInt tok = inr v /\ - 2 ^ 63 <= v < 2 ^ 63 /\ s2 = mkss l' c0).
  { intros sgn d ds l' c0 tok _ Hp.
    destruct (ParseInt tok) as [e|i]; [discriminate|].
    destruct ((- 2 ^ (intBits - 1) <=? i) && (i <? 2 ^ (intBits - 1))) eqn:Hr;
      [|discriminate].
    injection Hp as -> <-. change (intBits - 1) with 63 in Hr.
    apply andb_prop in Hr. destruct Hr as [H1 H2].
    apply Z.leb_le in H1. apply Z.ltb_lt in H2. repeat split; assumption. }
  unfold scanInt, SkipSpace in H. simpl input in H. simpl count in H.
  rewrite (SkipSpace_loop_none l1 cnt Hsp Hb) in H.
  destruct l1 as [|c r]; [rewrite getRune_nil in H; discriminate|].
  rewrite (getRune_cons c r cnt Hb) in H. simpl fst in H. cbv iota in H.
  unfold accept at 1 in H. rewrite (getRune_cons c r cnt Hb) in H.
  simpl length in Hb.
  destruct (isSign c) eqn:Hsg.
  - destruct r as [|d r2]; [rewrite getRune_nil in H; discriminate|].
    assert (Hb1 : cnt + 1 + Z.of_nat (length (d :: r2)) <= hugeWid)
      by (simpl length in *; lia).
    rewrite (getRune_cons d r2 (cnt + 1) Hb1) in H. simpl fst in H. cbv iota in H.
    unfold accept in H. rewrite (getRune_cons d r2 (cnt + 1) Hb1) in H.
    destruct (isDigit d) eqn:Hd; [|discriminate].
    simpl input in H. simpl count in H.
    destruct (class_split isDigit r2) as (ds & l' & -> & Hds & Hl').
    rewrite (acceptDigits_loop_digits ds l' (cnt + 1 + 1) Hds Hl') in H
      by (simpl length in Hb1; lia).
    destruct (Hfin (Some c) d ds l' _ _ eq_refl H) as (Hp & Hr & ->).
    exists (c :: d :: ds), l'.
    assert (Hdd : forallb isDigit (d :: ds) = true) by (simpl; rewrite Hd, Hds; reflexivity).
    repeat split; try assumption; try apply Hr.
    + apply isSign_spec in Hsg. destruct Hsg as [Hc|Hc].
      * change (c = PLUS) in Hc. subst c.
        apply Num_plus; [discriminate | exact Hdd |].
        apply (ParseInt_plus_inv (d :: ds) v); [discriminate | exact Hdd | exact Hp].
      * change (c = MINUS) in Hc. subst c.
        apply Num_minus; [discriminate | exact Hdd |].
        apply (ParseInt_minus_inv (d :: ds) v); [discriminate | exact Hdd | exact Hp].
    + f_equal. simpl length. lia.
  - rewrite (getRune_cons c r cnt) in H by (simpl length; exact Hb).
    simpl fst in H. cbv iota in H.
    unfold accept in H. rewrite (getRune_cons c r cnt) in H by (simpl length; exact Hb).
    destruct (isDigit c) eqn:Hd; [|discriminate].
    simpl input in H. simpl count in H.
    destruct (class_split isDigit r) as (ds & l' & -> & Hds & Hl').
    rewrite (acceptDigits_loop_digits ds l' (cnt + 1) Hds Hl') in H by lia.
    destruct (Hfin None c ds l' _ _ eq_refl H) as (Hp & Hr & ->).
    exists (c :: ds), l'.
    assert (Hdd : forallb isDigit (c :: ds) = true) by (simpl; rewrite Hd, Hds; reflexivity).
    repeat split; try assumption; try apply Hr.
    + apply Num_plain; [discriminate | exact Hdd |].
      apply (ParseInt_plain_inv (c :: ds) v); [discriminate | exact Hdd | exact Hp].
    + f_equal. simpl length. lia.
Qed.

Lemma plain_noPP (f : text) : plain f = true -> noPP f = true.
Proof.
  intro H. destruct f as [|a [|b f]]; try reflexivity.
  simpl. destruct (a =? PERCENT)%N eqn:Ha; [|reflexivity].
  cbn [plain] in H.
  assert (Hs : isSpace a = false)
    by (apply N.eqb_eq in Ha; subst a; reflexivity).
  rewrite Hs, Ha in H. apply andb_prop in H. destruct H as [Hb _].
  apply N.eqb_eq in Hb. subst b. reflexivity.
Qed.

Lemma plain_run (t : text) :
  forall c, plain (c :: t) = true -> isSpace c = true ->
    exists sp f',
      c :: t = sp ++ f' /\ sp <> [] /\ forallb isBlank sp = true /\
      noLead isSpace f' = true /\ f' <> [] /\ plain f' = true.
Proof.
  induction t as [|c2 t2 IH]; intros c Hp Hs.
  - cbn [plain] in Hp. rewrite Hs in Hp.
    apply andb_prop in Hp. destruct Hp as [Hp _].
    apply andb_prop in Hp. destruct Hp as [_ Hp]. discriminate.
  - cbn [plain] in Hp. rewrite Hs in Hp. fold plain in Hp.
    apply andb_prop in Hp. destruct Hp as [Hp Hpt].
    apply andb_prop in Hp. destruct Hp as [Hb _].
    assert (Hpt' : plain (c2 :: t2) = true) by exact Hpt. clear Hpt.
    rename Hpt' into Hpt.
    destruct (isSpace c2) eqn:Hs2.
    + destruct (IH c2 Hpt Hs2) as (sp & f' & Heq & Hne & Hsp & Hf & Hfne & Hpf).
      exists (c :: sp), f'. rewrite Heq.
      split; [reflexivity|]. split; [discriminate|].
      split; [simpl; rewrite Hb, Hsp; reflexivity|].
      repeat split; assumption.
    + exists [c], (c2 :: t2).
      split; [reflexivity|]. split; [discriminate|].
      split; [simpl; rewrite Hb; reflexivity|].
      split; [simpl; rewrite Hs2; reflexivity|].
      split; [discriminate | exact Hpt].
Qed.

Lemma matchTrailing_nil (cnt : Z) :
  matchTrailing O (mkss [] cnt) = inr (mkss [] cnt).
Proof.
  unfold matchTrailing, skipBlanks. rewrite getRune_nil. simpl.
  destruct (hugeWid <=? cnt); reflexivity.
Qed.

Lemma advance_space_eof (sp f : text) (cnt : Z) :
  sp <> [] -> forallb isBlank sp = true -> noLead isSpace f = true ->
  advance (sp ++ f) (mkss [] cnt) = shift (length sp) (advance f (mkss [] cnt)).
Proof.
  intros Hne Hsp Hf. unfold advance.
  pose proof (spaceRun_blanks sp f O false Hsp Hf) as Hrun.
  destruct sp as [|w sp]; [congruence|].
  pose proof Hsp as Hw. simpl in Hw. apply andb_prop in Hw. destruct Hw as [Hw _].
  apply isBlank_spec in Hw. destruct Hw as [Hs _].
  change (length ((w :: sp) ++ f)) with (S (length (sp ++ f))).
  change ((w :: sp) ++ f) with (w :: (sp ++ f)) at 1.
  cbn [advance_loop]. rewrite Hs.
  change (w :: sp ++ f) with ((w :: sp) ++ f). rewrite Hrun.
  cbn [matchNewlines]. rewrite matchTrailing_nil.
  rewrite skipn_app_exact. rewrite advance_loop_shift.
  rewrite (advance_loop_fuel (length (sp ++ f)) (length f));
    [reflexivity | rewrite length_app; lia | lia].
Qed.

Lemma matchTrailing_fail (x : rune) (l : text) (cnt : Z) :
  noLead isBlank (x :: l) = true ->
  cnt + Z.of_nat (length (x :: l)) <= hugeWid ->
  exists e, matchTrailing O (mkss (x :: l) cnt) = inl e.
Proof.
  intros Hx Hb. unfold matchTrailing. rewrite (getRune_cons x l cnt Hb).
  simpl fst. simpl in Hx. apply negb_true_iff in Hx. unfold isBlank in Hx.
  cbn [fst].
  destruct (isSpace x); cbn [negb andb] in *; [|eauto].
  apply negb_false_iff in Hx. rewrite Hx. eauto.
Qed.

Lemma advance_space_fail (sp f : text) (x : rune) (l : text) (cnt : Z) :
  sp <> [] -> forallb isBlank sp = true -> noLead isSpace f = true ->
  noLead isBlank (x :: l) = true ->
  cnt + Z.of_nat (length (x :: l)) <= hugeWid ->
  exists e, advance (sp ++ f) (mkss (x :: l) cnt) = AdvPanic e.
Proof.
  intros Hne Hsp Hf Hx Hb. unfold advance.
  pose proof (spaceRun_blanks sp f O false Hsp Hf) as Hrun.
  destruct sp as [|w sp]; [congruence|].
  pose proof Hsp as Hw. simpl in Hw. apply andb_prop in Hw. destruct Hw as [Hw _].
  apply isBlank_spec in Hw. destruct Hw as [Hs _].
  change (length ((w :: sp) ++ f)) with (S (length (sp ++ f))).
  change ((w :: sp) ++ f) with (w :: (sp ++ f)) at 1.
  cbn [advance_loop]. rewrite Hs.
  change (w :: sp ++ f) with ((w :: sp) ++ f). rewrite Hrun.
  cbn [matchNewlines].
  destruct (matchTrailing_fail x l cnt Hx Hb) as (e & ->). eauto.
Qed.

Lemma Instance_nil_inv (f : text) (vs : list Z) :
  Instance f vs [] -> noLead isSpace f = true -> f = [].
Proof.
  intros H Hf.
  inversion H as [rest|c f0 vs0 l Hs Hp Hi
                 |sp f0 vs0 ws l Hne Hsp Hf0 Hwne Hws Hl Hi Heq1 Heq2 Heq3
                 |f0 vs0 ws tok v l Hws Hnum Hr Hl Hi Heq1 Heq2 Heq3].
  - reflexivity.
  - exfalso. subst f. destruct sp as [|w sp]; [congruence|].
    simpl in Hsp, Hf. apply andb_prop in Hsp. destruct Hsp as [Hw _].
    apply isBlank_spec in Hw. destruct Hw as [Hw _]. rewrite Hw in Hf.
    discriminate.
  - exfalso. apply app_eq_nil in Heq3. destruct Heq3 as [_ Heq3].
    apply app_eq_nil in Heq3. destruct Heq3 as [Heq3 _]. subst tok.
    inversion Hnum; congruence.
Qed.

(** A line on which [doScanf] reports no error carries an instance of the
    format. *)
Lemma doScanf_accept_Instance :
  forall m f, (length f <= m)%nat -> plain f = true ->
    forall a n l cnt p p' n',
      (n <= length a)%nat ->
      cnt + Z.of_nat (length l) <= hugeWid ->
      doScanf_loop (length f) f a n (mkss l cnt) p = Some (p', n', None) ->
      exists vs, Instance f vs l /\ (n + length vs = length a)%nat.
Proof.
  induction m as [|m IH]; intros f Hm Hpl a n l cnt p p' n' Hn Hb H.
  { destruct f; [|simpl in Hm; lia]. simpl in H. unfold doScanf_end in H.
    destruct (n <? length a)%nat eqn:Hlt; [discriminate|].
    apply Nat.ltb_ge in Hlt. exists []. split; [constructor | simpl; lia]. }
  destruct f as [|c t].
  { simpl in H. unfold doScanf_end in H.
    destruct (n <? length a)%nat eqn:Hlt; [discriminate|].
    apply Nat.ltb_ge in Hlt. exists []. split; [constructor | simpl; lia]. }
  simpl in Hm.
  destruct (isSpace c) eqn:Hs.
  - (* a run of blanks *)
    destruct (plain_run t c Hpl Hs) as (sp & f' & Heq & Hne & Hsp & Hf & Hfne & Hpf).
    rewrite Heq in H |- *.
    assert (Hlen : (length f' <= m)%nat).
    { apply (f_equal (@length rune)) in Heq. rewrite length_app in Heq.
      simpl in Heq. destruct sp; [congruence | simpl in Heq; lia]. }
    destruct sp as [|w sp]; [congruence|].
    assert (Hw : (w =? PERCENT)%N = false).
    { simpl in Hsp. apply andb_prop in Hsp. destruct Hsp as [Hw _].
      apply isBlank_spec in Hw. apply space_not_percent, Hw. }
    change ((w :: sp) ++ f') with (w :: (sp ++ f')) in H.
    destruct (class_split isBlank l) as (ws & l' & -> & Hws & Hl').
    destruct ws as [|w0 ws].
    + simpl app in *. destruct l' as [|x l''].
      * rewrite (doScanf_prefix w (sp ++ f') f' (length sp)
                   (mkss [] cnt) (mkss [] cnt)) in H.
        -- destruct (IH f' Hlen Hpf a n [] cnt p p' n' Hn Hb H) as (vs & Hi & _).
           exfalso. apply Hfne. apply (Instance_nil_inv f' vs Hi Hf).
        -- exact Hw.
        -- symmetry. apply skipn_app_exact.
        -- apply (advance_space_eof (w :: sp) f' cnt); assumption.
        -- apply plain_noPP, Hpf.
      * exfalso.
        destruct (advance_space_fail (w :: sp) f' x l'' cnt Hne Hsp Hf Hl' Hb)
          as (e & Hadv).
        change ((w :: sp) ++ f') with (w :: (sp ++ f')) in Hadv.
        cbn [length doScanf_loop] in H. rewrite Hadv in H. discriminate.
    + rewrite (doScanf_prefix w (sp ++ f') f' (length sp)
                 (mkss ((w0 :: ws) ++ l') cnt)
                 (mkss l' (cnt + Z.of_nat (length (w0 :: ws))))) in H.
      * assert (Hb' : cnt + Z.of_nat (length (w0 :: ws)) + Z.of_nat (length l')
                      <= hugeWid) by (rewrite length_app in Hb; lia).
        destruct (IH f' Hlen Hpf a n l' _ p p' n' Hn Hb' H)
          as (vs & Hi & Hcount).
        exists vs. split; [|exact Hcount].
        change (w :: sp ++ f') with ((w :: sp) ++ f').
        apply inst_space; try assumption. discriminate.
      * exact Hw.
      * symmetry. apply skipn_app_exact.
      * apply (advance_space (w :: sp) f' (w0 :: ws) l' cnt); try assumption.
        discriminate.
      * apply plain_noPP, Hpf.
  - destruct (c =? PERCENT)%N eqn:Hc.
    + (* the verb *)
      apply N.eqb_eq in Hc. subst c.
      cbn [plain] in Hpl. rewrite Hs in Hpl. change (PERCENT =? PERCENT)%N with true in Hpl.
      cbv iota in Hpl.
      destruct t as [|d f'']; [discriminate|].
      apply andb_prop in Hpl. destruct Hpl as [Hd Hpf].
      apply N.eqb_eq in Hd. subst d.
      assert (Hadv : advance (PERCENT :: VERB_d :: f'') (mkss l cnt)
                     = AdvStop O (mkss l cnt)) by reflexivity.
      cbn [length] in H. remember (S (length f'')) as m' eqn:Hm'.
      cbn [doScanf_loop] in H. rewrite Hadv in H.
      change (PERCENT =? PERCENT)%N with true in H.
      change (VERB_d =? VERB_d)%N with true in H. cbv iota in H.
      unfold SkipSpace in H. simpl input in H. simpl count in H.
      destruct (SkipSpace_loop l cnt) as [e|s1] eqn:Hskip; [discriminate|].
      destruct (SkipSpace_loop_inv l cnt s1 Hb Hskip)
        as (ws & l1 & -> & Hws & Hl1 & ->).
      destruct (nth_error a n) as [arg|] eqn:Harg; [|discriminate].
      rewrite length_app in Hb.
      destruct (scanInt (mkss l1 (cnt + Z.of_nat (length ws))))
        as [e|[v s2]] eqn:Hscan; [discriminate|].
      assert (Hb1 : cnt + Z.of_nat (length ws) + Z.of_nat (length l1) <= hugeWid)
        by lia.
      destruct (scanInt_inv l1 _ v s2 Hl1 Hb1 Hscan)
        as (tok & l' & -> & Hnum & Hr & Hl' & ->).
      subst m'. rewrite (doScanf_loop_fuel (S (length f'')) (length f'')) in H by lia.
      assert (Hlt : (n < length a)%nat) by (apply nth_error_Some; congruence).
      rewrite length_app in Hb1.
      assert (Hb2 : cnt + Z.of_nat (length ws) + Z.of_nat (length tok)
                    + Z.of_nat (length l') <= hugeWid) by lia.
      assert (Hlen : (length f'' <= m)%nat) by (simpl in Hm; lia).
      destruct (IH f'' Hlen Hpf a (S n) l' _ _ p' n' Hlt Hb2 H)
        as (vs & Hi & Hcount).
      exists (v :: vs). split; [|simpl length; lia].
      apply inst_int; assumption.
    + (* literal text *)
      assert (Hpt : plain t = true).
      { cbn [plain] in Hpl. rewrite Hs, Hc in Hpl. exact Hpl. }
      pose proof (doScanf_label (c :: t) a n n' l cnt p p' H) as Hlab.
      cbn [label] in Hlab. rewrite Hs, Hc in Hlab. simpl orb in Hlab. cbv iota in Hlab.
      destruct l as [|x l']; [discriminate|].
      simpl in Hlab. apply andb_prop in Hlab. destruct Hlab as [Hx _].
      apply N.eqb_eq in Hx. subst x.
      rewrite (doScanf_prefix c t t O (mkss (c :: l') cnt) (mkss l' (cnt + 1))) in H.
      * assert (Hb' : cnt + 1 + Z.of_nat (length l') <= hugeWid)
          by (simpl length in Hb; lia).
        assert (Hlen : (length t <= m)%nat) by lia.
        destruct (IH t Hlen Hpt a n l' _ p p' n' Hn Hb' H)
          as (vs & Hi & Hcount).
        exists vs. split; [|exact Hcount].
        apply inst_lit; [exact Hs | apply N.eqb_neq, Hc | exact Hi].
      * exact Hc.
      * reflexivity.
      * apply advance_lit; [exact Hs | apply N.eqb_neq, Hc | exact Hb].
      * apply plain_noPP, Hpt.
Qed.

Lemma scanners_plain :
  Forall (fun s => plain (format s) = true) (scanners newProcStatusBuilder).
Proof. repeat constructor. Qed.

Lemma matches_Instance (s : procStatusScanner) (line : text) :
  plain (format s) = true -> Z.of_nat (length line) <= hugeWid ->
  matches s line = true -> exists vs, Instance (format s) vs line.
Proof.
  intros Hpl Hb Hm. unfold matches, Sscanf in Hm.
  destruct (doScanf_loop (length (format s)) (format s) (args s) O
              (mkss line 0) ProcStatusZero) as [[[p' n'] [e|]]|] eqn:H;
    try discriminate.
  destruct (doScanf_accept_Instance (length (format s)) (format s)
              (Nat.le_refl _) Hpl (args s) O line 0 ProcStatusZero p' n'
              (Nat.le_0_l _)) as (vs & Hi & _); [lia | exact H |].
  exists vs. exact Hi.
Qed.

(** X1. A scanner of the table accepts a line (shorter than 2^30 runes)
    exactly when the line begins with an instance of its template: the
    label, then for each blank of the format at least one blank, for each
    [%d] a decimal numeral within the range of [int], optionally signed and
    with blanks before it, and the text [kB] where the format has it. *)
Theorem scanner_accepts_exactly_instances (s : procStatusScanner) (line : text) :
  In s (scanners newProcStatusBuilder) ->
  Z.of_nat (length line) <= hugeWid ->
  (matches s line = true <-> exists vs, Instance (format s) vs line).
Proof.
  intros Hin Hb. split.
  - apply matches_Instance; [|exact Hb].
    apply (proj1 (Forall_forall _ _) scanners_plain s Hin).
  - intros (vs & Hi). unfold matches.
    rewrite (Sscanf_Instance line (format s) (args s) vs ProcStatusZero Hi);
      [reflexivity | | exact Hb].
    rewrite (Instance_verbs _ _ _ Hi).
    apply (proj1 (Forall_forall _ _) scanners_verbs s Hin).
Qed.

Lemma scanner_accepts_exactly_instances_witness :
  matches (mkScanner (runes "VmPeak: %d kB") [pVmPeakKB])
          (tabbed ["VmPeak:"; "   10000 kB"]%string ++ [LF]) = true <->
  exists vs, Instance (runes "VmPeak: %d kB") vs
               (tabbed ["VmPeak:"; "   10000 kB"]%string ++ [LF]).
Proof.
  apply (scanner_accepts_exactly_instances
           (mkScanner (runes "VmPeak: %d kB") [pVmPeakKB])
           (tabbed ["VmPeak:"; "   10000 kB"]%string ++ [LF])).
  - simpl. do 5 right. left. reflexivity.
  - vm_compute. discriminate.
Defined.

Lemma readScanners_success_WellFormed :
  forall l r p,
    Forall (fun s => plain (format s) = true) l ->
    Z.of_nat (length (data r)) < hugeWid ->
    forall res, readScanners l r p = Some (res, None) ->
      exists vss, WellFormed l vss (data r).
Proof.
  apply (readScanners_ind (fun l r p =>
    Forall (fun s => plain (format s) = true) l ->
    Z.of_nat (length (data r)) < hugeWid ->
    forall res, readScanners l r p = Some (res, None) ->
      exists vss, WellFormed l vss (data r))).
  - intros r p _ _ res _. exists []. constructor.
  - intros s l r p Hm Hn Hpl Hb res H. rewrite readScanners_step in H.
    destruct (ReadString r LF) as [[line [e|]] r'] eqn:Hr; [discriminate|].
    destruct (ReadString_line _ _ _ Hr) as (Hd & _ & Hlen & body & -> & Hnl).
    assert (Hd' : data r = body ++ LF :: data r')
      by (rewrite Hd, <- app_assoc; reflexivity).
    assert (Hb' : Z.of_nat (length (data r')) < hugeWid) by lia.
    assert (Hbody : Z.of_nat (length body) < hugeWid).
    { rewrite Hd', length_app in Hb. lia. }
    destruct (Sscanf (body ++ [LF]) (format s) (args s) p)
      as [[[p' n] [err|]]|] eqn:Hs; [| |discriminate].
    + destruct (Hn _ _ _ _ _ eq_refl Hs Hpl Hb' res H) as (vss & Hw).
      exists vss. rewrite Hd'. apply wf_extra; try assumption.
      destruct (Sscanf_stores _ _ _ _ _ Hs) as (vs & e & _ & _ & H3).
      rewrite (H3 p) in Hs. injection Hs as _ _ ->.
      unfold matches. rewrite (H3 ProcStatusZero). reflexivity.
    + destruct (Hm _ _ _ _ eq_refl Hs (Forall_inv_tail Hpl) Hb' res H)
        as (vss & Hw).
      unfold Sscanf in Hs.
      destruct (doScanf_accept_Instance (length (format s)) (format s)
                  (Nat.le_refl _) (Forall_inv Hpl) (args s) O (body ++ [LF]) 0
                  p p' n (Nat.le_0_l _)) as (vs & Hi & _);
        [rewrite length_app; simpl length; lia | exact Hs |].
      exists (vs :: vss). rewrite Hd'. apply wf_line; assumption.
Qed.

(** X2. [readStatus] with the table succeeds exactly on the well-formed
    files (for a file shorter than 2^30 runes): it returns a record without
    error if and only if the file holds, for each scanner in turn, a line
    with an instance of its template preceded only by lines the scanner
    does not accept, and the record is then made of the values of those
    lines; on every other file it returns the zero record and the error of
    the reader. *)
Theorem readStatus_succeeds_exactly (d : text) (e : error) :
  Z.of_nat (length d) < hugeWid ->
  (forall res,
     readStatus newProcStatusBuilder (mkReader d e) = Some (res, None) <->
     exists vss,
       WellFormed (scanners newProcStatusBuilder) vss d /\
       res = storesAll (scanners newProcStatusBuilder) vss ProcStatusZero) /\
  ((forall vss, ~ WellFormed (scanners newProcStatusBuilder) vss d) ->
   readStatus newProcStatusBuilder (mkReader d e) = Some (ProcStatusZero, Some e)).
Proof.
  intro Hb.
  assert (Hfwd : forall vss,
    WellFormed (scanners newProcStatusBuilder) vss d ->
    readStatus newProcStatusBuilder (mkReader d e) =
    Some (storesAll (scanners newProcStatusBuilder) vss ProcStatusZero, None)).
  { intros vss Hw. unfold readStatus.
    change (ps newProcStatusBuilder) with ProcStatusZero.
    apply (readScanners_WellFormed _ _ _ e Hw scanners_supported scanners_verbs).
    intros q _. reflexivity. }
  assert (Hbwd : forall res,
    readStatus newProcStatusBuilder (mkReader d e) = Some (res, None) ->
    exists vss, WellFormed (scanners newProcStatusBuilder) vss d).
  { intros res H.
    apply (readScanners_success_WellFormed _ (mkReader d e) _ scanners_plain Hb res H). }
  split.
  - intro res. split.
    + intro H. destruct (Hbwd res H) as (vss & Hw). exists vss.
      split; [exact Hw|]. rewrite (Hfwd vss Hw) in H. congruence.
    + intros (vss & Hw & ->). apply Hfwd, Hw.
  - intro Hnone.
    pose proof (readScanners_total (scanners newProcStatusBuilder) (mkReader d e)
                  ProcStatusZero scanners_supported) as Ht.
    unfold readStatus. change (ps newProcStatusBuilder) with ProcStatusZero.
    destruct (readScanners (scanners newProcStatusBuilder) (mkReader d e)
                ProcStatusZero) as [[res [err|]]|] eqn:H; [| |congruence].
    + destruct (readScanners_error _ _ _ _ _ H) as [-> ->]. reflexivity.
    + exfalso. destruct (Hbwd res H) as (vss & Hw). apply (Hnone vss Hw).
Qed.

Lemma readStatus_succeeds_exactly_witness :
  (forall res,
     readStatus newProcStatusBuilder (mkReader sampleStatus EOF) = Some (res, None) <->
     exists vss,
       WellFormed (scanners newProcStatusBuilder) vss sampleStatus /\
       res = storesAll (scanners newProcStatusBuilder) vss ProcStatusZero) /\
  ((forall vss, ~ WellFormed (scanners newProcStatusBuilder) vss sampleStatus) ->
   readStatus newProcStatusBuilder (mkReader sampleStatus EOF)
   = Some (ProcStatusZero, Some EOF)).
Proof.
  apply (readStatus_succeeds_exactly sampleStatus EOF).
  vm_compute. reflexivity.
Defined.

(** ** Lines without a label of the table *)

(** A line that does not begin with the label of the format is turned down
    before anything is stored. *)
Lemma Sscanf_label_fail (line f : text) (a : list field) :
  prefixb (label f) line = false ->
  exists e, forall p, Sscanf line f a p = Some (p, O, Some e).
Proof.
  intro Hp. unfold Sscanf.
  destruct f as [|c t]; [discriminate|].
  pose proof (advance_loop_label (c :: t) (length (c :: t)) O line 0
                (Nat.le_refl _) Hp) as Hadv.
  fold (advance (c :: t) (mkss line 0)) in Hadv.
  cbn [length doScanf_loop]. simpl in Hp.
  destruct (isSpace c); [discriminate|].
  destruct (c =? PERCENT)%N eqn:Hc; [discriminate|].
  destruct (advance (c :: t) (mkss line 0)) as [w s'|s'|e|];
    try contradiction; eauto.
Qed.

Lemma readScanners_skip_line (junk post : text) (e : error) :
  noLF junk = true ->
  forall l p,
    (forall s, In s l -> prefixb (label (format s)) (junk ++ [LF]) = false) ->
    readScanners l (mkReader (junk ++ LF :: post) e) p =
    readScanners l (mkReader post e) p.
Proof.
  intros Hnl l p Hl. destruct l as [|s l]; [reflexivity|].
  rewrite readScanners_step, (ReadString_first junk post e Hnl).
  destruct (Sscanf_label_fail (junk ++ [LF]) (format s) (args s)
              (Hl s (or_introl eq_refl))) as (err & ->).
  reflexivity.
Qed.

Lemma readScanners_skip_in (junk post : text) (e : error) :
  noLF junk = true ->
  forall ls l p,
    Forall (fun b => noLF b = true) ls ->
    (forall s, In s l -> prefixb (label (format s)) (junk ++ [LF]) = false) ->
    readScanners l (mkReader (joinLines ls ++ junk ++ LF :: post) e) p =
    readScanners l (mkReader (joinLines ls ++ post) e) p.
Proof.
  intros Hnl ls. induction ls as [|b ls IH]; intros l p Hls Hl.
  - apply readScanners_skip_line; assumption.
  - destruct l as [|s l]; [reflexivity|].
    pose proof (Forall_inv Hls) as Hb. pose proof (Forall_inv_tail Hls) as Hls'.
    cbn [joinLines]. rewrite <- !app_assoc, <- !app_comm_cons.
    rewrite !readScanners_step, !(ReadString_first b _ e Hb).
    destruct (Sscanf (b ++ [LF]) (format s) (args s) p)
      as [[[p' n] [err|]]|]; [| |reflexivity].
    + apply IH; assumption.
    + apply IH; [assumption|]. intros s' Hin. apply Hl. right. exact Hin.
Qed.

(** X3. Lines that begin with no label of the table are passed over
    wherever they stand: putting such a line between two lines of a file
    changes neither the record nor the error [readStatus] returns. *)
Theorem readStatus_skips_unlabelled_line (ls : list text) (junk post : text)
    (e : error) :
  Forall (fun b => noLF b = true) ls -> noLF junk = true ->
  forallb (fun s => negb (prefixb (label (format s)) (junk ++ [LF])))
          (scanners newProcStatusBuilder) = true ->
  readStatus newProcStatusBuilder
    (mkReader (joinLines ls ++ junk ++ LF :: post) e) =
  readStatus newProcStatusBuilder (mkReader (joinLines ls ++ post) e).
Proof.
  intros Hls Hnl Hlab. unfold readStatus.
  apply readScanners_skip_in; try assumption.
  intros s Hin.
  apply (proj1 (forallb_forall _ _) Hlab) in Hin.
  apply negb_true_iff in Hin. exact Hin.
Qed.

Lemma readStatus_skips_unlabelled_line_witness :
  readStatus newProcStatusBuilder
    (mkReader (joinLines sampleBody
               ++ tabbed ["SigQ:"; "0/31000"]%string
               ++ LF :: joinLines [sampleLast]) EOF) =
  readStatus newProcStatusBuilder
    (mkReader (joinLines sampleBody ++ joinLines [sampleLast]) EOF).
Proof.
  apply (readStatus_skips_unlabelled_line sampleBody
           (tabbed ["SigQ:"; "0/31000"]%string) (joinLines [sampleLast]) EOF).
  - repeat constructor.
  - reflexivity.
  - reflexivity.
Defined.

(** X4. A scanner accepts only lines that begin with its label, rune for
    rune: blanks before the label or a label in other letters make the
    scanner turn the line down. *)
Theorem scanner_accepts_only_its_label (s : procStatusScanner) (line : text) :
  matches s line = true -> prefixb (label (format s)) line = true.
Proof.
  unfold matches. intro H.
  destruct (Sscanf line (format s) (args s) ProcStatusZero)
    as [[[p' n] [e|]]|] eqn:Hs; try discriminate.
  apply (Sscanf_label _ _ _ _ _ _ Hs).
Qed.

Lemma scanner_accepts_only_its_label_witness :
  prefixb (runes "Pid:") (tabbed ["Pid:"; "1234"]%string ++ [LF]) = true.
Proof.
  apply (scanner_accepts_only_its_label
           (mkScanner (runes "Pid: %d") [pTID])
           (tabbed ["Pid:"; "1234"]%string ++ [LF])).
  vm_compute. reflexivity.
Defined.

Lemma prefixb_comparable (a : text) :
  forall b l, prefixb a l = true -> prefixb b l = true ->
    prefixb a b = true \/ prefixb b a = true.
Proof.
  induction a as [|x a IH]; intros b l Ha Hb; [left; reflexivity|].
  destruct b as [|y b]; [right; reflexivity|].
  destruct l as [|z l]; [discriminate|].
  simpl in Ha, Hb. apply andb_prop in Ha. apply andb_prop in Hb.
  destruct Ha as [Hx Ha]. destruct Hb as [Hy Hb].
  apply N.eqb_eq in Hx. apply N.eqb_eq in Hy. subst x y.
  simpl. rewrite N.eqb_refl. simpl. apply (IH b l Ha Hb).
Qed.

Lemma labels_incomparable (s1 s2 : procStatusScanner) :
  In s1 (scanners newProcStatusBuilder) ->
  In s2 (scanners newProcStatusBuilder) ->
  prefixb (label (format s1)) (label (format s2)) = true -> s1 = s2.
Proof.
  intros H1 H2.
  cbv [scanners newProcStatusBuilder In] in H1, H2.
  repeat (destruct H1 as [<-|H1]); try contradiction;
    repeat (destruct H2 as [<-|H2]); try contradiction;
    intro Hp; first [reflexivity | vm_compute in Hp; discriminate].
Qed.

(** X5. No line is accepted by two scanners of the table: of the 18 labels
    none begins another, so a line that one scanner accepts is turned down
    by every other scanner. *)
Theorem scanners_accept_disjoint (s1 s2 : procStatusScanner) (line : text) :
  In s1 (scanners newProcStatusBuilder) ->
  In s2 (scanners newProcStatusBuilder) ->
  s1 <> s2 -> matches s1 line = true -> matches s2 line = false.
Proof.
  intros H1 H2 Hne M1.
  destruct (matches s2 line) eqn:M2; [|reflexivity]. exfalso. apply Hne.
  assert (L1 : prefixb (label (format s1)) line = true).
  { unfold matches in M1.
    destruct (Sscanf line (format s1) (args s1) ProcStatusZero)
      as [[[p' n] [e|]]|] eqn:Hs; try discriminate.
    apply (Sscanf_label _ _ _ _ _ _ Hs). }
  assert (L2 : prefixb (label (format s2)) line = true).
  { unfold matches in M2.
    destruct (Sscanf line (format s2) (args s2) ProcStatusZero)
      as [[[p' n] [e|]]|] eqn:Hs; try discriminate.
    apply (Sscanf_label _ _ _ _ _ _ Hs). }
  destruct (prefixb_comparable _ _ _ L1 L2) as [Hp|Hp].
  - apply labels_incomparable; assumption.
  - symmetry. apply labels_incomparable; assumption.
Qed.

Lemma scanners_accept_disjoint_witness :
  matches (mkScanner (runes "VmLib:  %d kB") [pVmLibKB])
          (tabbed ["VmLck:"; "       0 kB"]%string ++ [LF]) = false.
Proof.
  apply (scanners_accept_disjoint
           (mkScanner (runes "VmLck:  %d kB") [pVmLckKB])
           (mkScanner (runes "VmLib:  %d kB") [pVmLibKB])
           (tabbed ["VmLck:"; "       0 kB"]%string ++ [LF])).
  - simpl. do 7 right. left. reflexivity.
  - simpl. do 13 right. left. reflexivity.
  - discriminate.
  - vm_compute. reflexivity.
Defined.

(** ** The range of the fields *)

Lemma scanInt_range (s s' : ss) (v : Z) :
  scanInt s = inr (v, s') -> - 2 ^ 63 <= v < 2 ^ 63.
Proof.
  unfold scanInt. intro H.
  destruct (SkipSpace s) as [e|s1]; [discriminate|].
  destruct (fst (getRune s1)); [|discriminate].
  destruct (accept isSign s1) as [sgn s2].
  destruct (fst (getRune s2)); [|discriminate].
  destruct (accept isDigit s2) as [[d|] s3]; [|discriminate].
  destruct (acceptDigits_loop (input s3) (count s3)) as [ds s4].
  destruct (ParseInt _) as [e|i]; [discriminate|].
  destruct ((- 2 ^ (intBits - 1) <=? i) && (i <? 2 ^ (intBits - 1))) eqn:Hr;
    [|discriminate].
  injection H as <- _. change (intBits - 1) with 63 in Hr.
  apply andb_prop in Hr. destruct Hr as [H1 H2].
  apply Z.leb_le in H1. apply Z.ltb_lt in H2. split; assumption.
Qed.

Lemma store_range (arg : field) (v : Z) (p : ProcStatus) :
  - 2 ^ 63 <= v < 2 ^ 63 ->
  (forall q, - 2 ^ 63 <= load q p < 2 ^ 63) ->
  forall q, - 2 ^ 63 <= load q (store arg v p) < 2 ^ 63.
Proof.
  intros Hv Hp q. rewrite load_store. destruct (field_eqb arg q); auto.
Qed.

Lemma doScanf_loop_range :
  forall fuel f a n s p p' n' e,
    (forall q, - 2 ^ 63 <= load q p < 2 ^ 63) ->
    doScanf_loop fuel f a n s p = Some (p', n', e) ->
    forall q, - 2 ^ 63 <= load q p' < 2 ^ 63.
Proof.
  assert (Hend : forall a n (p p' : ProcStatus) n' e,
    (forall q, - 2 ^ 63 <= load q p < 2 ^ 63) ->
    doScanf_end a n p = (p', n', e) ->
    forall q, - 2 ^ 63 <= load q p' < 2 ^ 63).
  { intros a n p p' n' e Hp H. unfold doScanf_end in H.
    destruct (n <? length a)%nat; injection H as <- _ _; exact Hp. }
  induction fuel as [|k IH]; intros f a n s p p' n' e Hp H.
  - destruct f; [|discriminate]. simpl in H. injection H as H.
    apply (Hend _ _ _ _ _ _ Hp H).
  - destruct f as [|c t].
    { simpl in H. injection H as H. apply (Hend _ _ _ _ _ _ Hp H). }
    cbn [doScanf_loop] in H.
    assert (Hverb : forall s0,
      match c :: t with
      | _ :: c0 :: rest =>
        if (c0 =? VERB_d)%N then
          match SkipSpace s0 with
          | inl e => Some (p, n, Some e)
          | inr s1 =>
            match nth_error a n with
            | None => Some (p, n, Some (ErrScan "too few operands for format"))
            | Some arg =>
              match scanInt s1 with
              | inl e => Some (p, n, Some e)
              | inr (v, s2) => doScanf_loop k rest a (S n) s2 (store arg v p)
              end
            end
          end
        else None
      | _ => None
      end = Some (p', n', e) ->
      forall q, - 2 ^ 63 <= load q p' < 2 ^ 63).
    { intros s0 Hv. destruct t as [|c0 rest]; [discriminate|].
      destruct (c0 =? VERB_d)%N; [|discriminate].
      destruct (SkipSpace s0) as [e0|s1]; [injection Hv as <- _ _; exact Hp|].
      destruct (nth_error a n) as [arg|]; [|injection Hv as <- _ _; exact Hp].
      destruct (scanInt s1) as [e0|[v s2]] eqn:Hscan;
        [injection Hv as <- _ _; exact Hp|].
      apply (IH _ _ _ _ _ _ _ _ (store_range arg v p (scanInt_range _ _ _ Hscan) Hp) Hv). }
    destruct (advance (c :: t) s) as [[|w] s'|s'|e0|]; try discriminate.
    + destruct (c =? PERCENT)%N; [apply (Hverb _ H)|].
      injection H as H. apply (Hend _ _ _ _ _ _ Hp H).
    + apply (IH _ _ _ _ _ _ _ _ Hp H).
    + destruct (c =? PERCENT)%N; [apply (Hverb _ H)|].
      injection H as <- _ _. exact Hp.
    + injection H as <- _ _. exact Hp.
Qed.

Lemma readScanners_range :
  forall l r p,
    (forall q, - 2 ^ 63 <= load q p < 2 ^ 63) ->
    forall res e, readScanners l r p = Some (res, e) ->
      forall q, - 2 ^ 63 <= load q res < 2 ^ 63.
Proof.
  apply (readScanners_ind (fun l r p =>
    (forall q, - 2 ^ 63 <= load q p < 2 ^ 63) ->
    forall res e, readScanners l r p = Some (res, e) ->
      forall q, - 2 ^ 63 <= load q res < 2 ^ 63)).
  - intros r p Hp res e H. injection H as <- _. exact Hp.
  - intros s l r p Hm Hn Hp res e H. rewrite readScanners_step in H.
    destruct (ReadString r LF) as [[line [err|]] r'] eqn:Hr.
    + injection H as <- _. intro q. destruct q; simpl; lia.
    + destruct (Sscanf line (format s) (args s) p) as [[[p' n] [err|]]|] eqn:Hs;
        [| |discriminate].
      * apply (Hn _ _ _ _ _ eq_refl Hs
                 (doScanf_loop_range _ _ _ _ _ _ _ _ _ Hp Hs) _ _ H).
      * apply (Hm _ _ _ _ eq_refl Hs
                 (doScanf_loop_range _ _ _ _ _ _ _ _ _ Hp Hs) _ _ H).
Qed.

(** X6. Every field of a record [readStatus] returns lies within the range
    of a 64-bit [int], provided the record of the builder did to begin with
    (the zero record of [newProcStatusBuilder] does): a numeral outside the
    range is never stored. *)
Theorem readStatus_fields_in_int_range (b : procStatusBuilder) (r : Reader)
    (res : ProcStatus) (e : option error) :
  (forall q, - 2 ^ 63 <= load q (ps b) < 2 ^ 63) ->
  readStatus b r = Some (res, e) ->
  forall q, - 2 ^ 63 <= load q res < 2 ^ 63.
Proof.
  unfold readStatus. intros Hp H.
  apply (readScanners_range _ _ _ Hp _ _ H).
Qed.

Lemma readStatus_fields_in_int_range_witness :
  - 2 ^ 63 <= load pVmPeakKB sampleRecord < 2 ^ 63.
Proof.
  apply (readStatus_fields_in_int_range newProcStatusBuilder
           (mkReader sampleStatus EOF) sampleRecord None).
  - intro q. destruct q; simpl; lia.
  - vm_compute. reflexivity.
Defined.

(** ** Numerals beyond the range of [int] *)

Lemma ParseInt_overflow (ds : text) :
  ds <> [] -> forallb isDigit ds = true -> 2 ^ 63 <= decimal ds ->
  ParseInt ds = inl ErrRange.
Proof.
  intros Hne Hds Hr. destruct ds as [|d ds]; [congruence|].
  unfold ParseInt.
  assert (Hd : isDigit d = true) by (simpl in Hds; apply andb_prop in Hds; apply Hds).
  destruct (digit_classes d Hd) as (_ & _ & Hp & Hm).
  rewrite Hp, Hm. cbv zeta. simpl orb. cbv iota.
  unfold ParseUint. rewrite Hds. cbv zeta.
  destruct (2 ^ 64 <=? decimal (d :: ds)); [reflexivity|].
  assert (H : (2 ^ 63 <=? decimal (d :: ds)) = true) by (apply Z.leb_le; lia).
  rewrite H. reflexivity.
Qed.

Lemma scanInt_overflow (ds l : text) (cnt : Z) :
  ds <> [] -> forallb isDigit ds = true -> 2 ^ 63 <= decimal ds ->
  noLead isDigit l = true ->
  cnt + Z.of_nat (length (ds ++ l)) <= hugeWid ->
  scanInt (mkss (ds ++ l) cnt) = inl ErrRange.
Proof.
  intros Hne Hds Hr Hl Hb.
  pose proof (ParseInt_overflow ds Hne Hds Hr) as Hparse.
  destruct ds as [|d ds]; [congruence|].
  pose proof Hds as Hds'. simpl in Hds'. apply andb_prop in Hds'.
  destruct Hds' as [Hd Hds'].
  destruct (digit_classes d Hd) as (Hsp & Hsg & _ & _).
  simpl app in *. simpl length in Hb.
  assert (Hg : getRune (mkss (d :: ds ++ l) cnt)
               = (Some d, mkss (ds ++ l) (cnt + 1)))
    by (apply getRune_cons; simpl length; lia).
  unfold scanInt, SkipSpace. simpl input. simpl count.
  rewrite SkipSpace_loop_none by (simpl; try rewrite Hsp; auto).
  unfold accept. rewrite Hg. cbn [fst]. rewrite Hsg. rewrite Hg. cbn [fst].
  rewrite Hd. simpl input. simpl count.
  rewrite (acceptDigits_loop_digits ds l (cnt + 1) Hds' Hl) by lia.
  simpl app. rewrite Hparse. reflexivity.
Qed.

Lemma label_literal (f : text) :
  forallb (fun c => negb (isSpace c) && negb (c =? PERCENT)%N) (label f) = true.
Proof.
  induction f as [|c f IH]; [reflexivity|]. simpl.
  destruct (isSpace c) eqn:Hs; [reflexivity|].
  destruct (c =? PERCENT)%N eqn:Hc; [reflexivity|].
  simpl. rewrite Hs, Hc. exact IH.
Qed.

(** [doScanf] runs through the literal runes a format and the text share. *)
Lemma doScanf_literals (lab : text) :
  forall f l cnt a n p,
    forallb (fun c => negb (isSpace c) && negb (c =? PERCENT)%N) lab = true ->
    noPP f = true ->
    cnt + Z.of_nat (length (lab ++ l)) <= hugeWid ->
    doScanf_loop (length (lab ++ f)) (lab ++ f) a n (mkss (lab ++ l) cnt) p =
    doScanf_loop (length f) f a n (mkss l (cnt + Z.of_nat (length lab))) p.
Proof.
  induction lab as [|c lab IH]; intros f l cnt a n p Hlab Hpp Hb.
  - simpl. rewrite Z.add_0_r. reflexivity.
  - simpl in Hlab. apply andb_prop in Hlab. destruct Hlab as [Hc Hlab].
    apply andb_prop in Hc. destruct Hc as [Hs Hc].
    apply negb_true_iff in Hs. apply negb_true_iff in Hc.
    simpl app. simpl app in Hb.
    assert (Hpp' : noPP (lab ++ f) = true).
    { destruct lab as [|c' lab']; [exact Hpp|].
      simpl in Hlab. apply andb_prop in Hlab. destruct Hlab as [Hc' _].
      apply andb_prop in Hc'. destruct Hc' as [_ Hc'].
      apply negb_true_iff in Hc'.
      simpl. destruct (lab' ++ f); [reflexivity|]. rewrite Hc'. reflexivity. }
    rewrite (doScanf_prefix c (lab ++ f) (lab ++ f) O
               (mkss (c :: lab ++ l) cnt) (mkss (lab ++ l) (cnt + 1)) a n p
               Hc eq_refl
               (advance_lit c (lab ++ f) (lab ++ l) cnt Hs
                  (proj1 (N.eqb_neq _ _) Hc) Hb)
               Hpp').
    rewrite IH; [|assumption|assumption|simpl length in Hb; lia].
    f_equal. f_equal. simpl length. lia.
Qed.

Lemma Sscanf_overflow (lab sp f' : text) (a : list field) (arg : field)
    (ws ds rest : text) (p : ProcStatus) :
  forallb (fun c => negb (isSpace c) && negb (c =? PERCENT)%N) lab = true ->
  sp <> [] -> forallb isBlank sp = true ->
  ws <> [] -> forallb isBlank ws = true ->
  ds <> [] -> forallb isDigit ds = true -> 2 ^ 63 <= decimal ds ->
  noLead isDigit rest = true ->
  nth_error a O = Some arg ->
  Z.of_nat (length (lab ++ ws ++ ds ++ rest)) <= hugeWid ->
  Sscanf (lab ++ ws ++ ds ++ rest) (lab ++ sp ++ PERCENT :: VERB_d :: f') a p
  = Some (p, O, Some ErrRange).
Proof.
  intros Hlab Hspne Hsp Hwne Hws Hdne Hds Hr Hrest Harg Hb.
  assert (Hd : noLead isSpace (ds ++ rest) = true /\
               noLead isBlank (ds ++ rest) = true).
  { destruct ds as [|d ds]; [congruence|]. simpl in Hds.
    apply andb_prop in Hds. destruct Hds as [Hd _].
    destruct (digit_classes d Hd) as (Hs & _). simpl.
    unfold isBlank. rewrite Hs. split; reflexivity. }
  destruct Hd as [Hd1 Hd2].
  rewrite !length_app in Hb.
  unfold Sscanf.
  rewrite doScanf_literals;
    [|assumption| |rewrite !length_app; lia].
  2:{ destruct sp as [|w sp]; [congruence|]. simpl in Hsp.
      apply andb_prop in Hsp. destruct Hsp as [Hw _].
      apply isBlank_spec in Hw. destruct Hw as [Hw _].
      apply space_not_percent in Hw.
      simpl. destruct (sp ++ PERCENT :: VERB_d :: f'); [reflexivity|].
      rewrite Hw. reflexivity. }
  rewrite Z.add_0_l.
  pose proof (advance_space sp (PERCENT :: VERB_d :: f') ws (ds ++ rest)
                (Z.of_nat (length lab)) Hspne Hsp eq_refl Hwne Hws Hd2) as Hadv.
  rewrite !length_app in Hadv. specialize (Hadv ltac:(lia)).
  destruct sp as [|w sp]; [congruence|].
  assert (Hw : (w =? PERCENT)%N = false).
  { simpl in Hsp. apply andb_prop in Hsp. destruct Hsp as [Hw _].
    apply isBlank_spec in Hw. destruct Hw as [Hw _].
    apply space_not_percent, Hw. }
  simpl app in *.
  rewrite (doScanf_prefix w (sp ++ PERCENT :: VERB_d :: f')
             (PERCENT :: VERB_d :: f') (length sp) _ _ a O p Hw
             (eq_sym (skipn_app_exact _ sp _)) Hadv eq_refl).
  cbn [length]. remember (S (length f')) as m eqn:Hm. cbn [doScanf_loop].
  assert (Ha0 : advance (PERCENT :: VERB_d :: f')
                  (mkss (ds ++ rest)
                     (Z.of_nat (length lab) + Z.of_nat (length ws)))
                = AdvStop O (mkss (ds ++ rest)
                     (Z.of_nat (length lab) + Z.of_nat (length ws))))
    by reflexivity.
  rewrite Ha0. change (PERCENT =? PERCENT)%N with true. cbv iota.
  change (VERB_d =? VERB_d)%N with true. cbv iota.
  unfold SkipSpace. simpl input. simpl count.
  rewrite SkipSpace_loop_none by (try assumption; rewrite length_app; lia).
  rewrite Harg.
  rewrite scanInt_overflow by (try assumption; rewrite length_app; lia).
  reflexivity.
Qed.

Lemma scanners_shape :
  Forall (fun s => exists sp f' arg,
            format s = label (format s) ++ sp ++ PERCENT :: VERB_d :: f' /\
            sp <> [] /\ forallb isBlank sp = true /\
            nth_error (args s) O = Some arg)
         (scanners newProcStatusBuilder).
Proof.
  repeat constructor;
    first [ exists [SP]; do 2 eexists;
            split; [reflexivity|]; split; [discriminate|];
            split; reflexivity
          | exists [SP; SP]; do 2 eexists;
            split; [reflexivity|]; split; [discriminate|];
            split; reflexivity
          | exists [SP; SP; SP; SP]; do 2 eexists;
            split; [reflexivity|]; split; [discriminate|];
            split; reflexivity ].
Qed.

(** X7. A line that carries the label of a scanner of the table, blanks and
    then an unsigned numeral of value 2^63 or more is turned down by that
    scanner with the range error of [strconv.ParseInt], and nothing is
    stored. *)
Theorem scanner_rejects_out_of_range (s : procStatusScanner)
    (ws ds rest : text) (p : ProcStatus) :
  In s (scanners newProcStatusBuilder) ->
  ws <> [] -> forallb isBlank ws = true ->
  ds <> [] -> forallb isDigit ds = true -> 2 ^ 63 <= decimal ds ->
  noLead isDigit rest = true ->
  Z.of_nat (length (label (format s) ++ ws ++ ds ++ rest)) <= hugeWid ->
  Sscanf (label (format s) ++ ws ++ ds ++ rest) (format s) (args s) p
  = Some (p, O, Some ErrRange).
Proof.
  intros Hin Hwne Hws Hdne Hds Hr Hrest Hb.
  destruct (proj1 (Forall_forall _ _) scanners_shape s Hin)
    as (sp & f' & arg & Hf & Hspne & Hsp & Harg).
  pose proof (Sscanf_overflow (label (format s)) sp f' (args s) arg ws ds rest p
                (label_literal _) Hspne Hsp Hwne Hws Hdne Hds Hr Hrest Harg Hb)
    as H.
  rewrite <- Hf in H. exact H.
Qed.

Lemma scanner_rejects_out_of_range_witness :
  Sscanf (runes "Pid:" ++ [TAB] ++ runes "9223372036854775808" ++ [LF])
         (runes "Pid: %d") [pTID] sampleRecord
  = Some (sampleRecord, O, Some ErrRange).
Proof.
  apply (scanner_rejects_out_of_range (mkScanner (runes "Pid: %d") [pTID])
           [TAB] (runes "9223372036854775808") [LF] sampleRecord).
  - simpl. left. reflexivity.
  - discriminate.
  - reflexivity.
  - discriminate.
  - reflexivity.
  - vm_compute. discriminate.
  - reflexivity.
  - vm_compute. discriminate.
Defined.

(** ** What follows the last line read *)

(** X8. [readStatus] stops reading at the line that satisfies its last
    scanner: once a text is read with success, whatever is put after it,
    and whatever error the reader would give at its end, the same record is
    returned. *)
Theorem readStatus_ignores_what_follows (b : procStatusBuilder) (d : text)
    (e : error) (res : ProcStatus) :
  readStatus b (mkReader d e) = Some (res, None) ->
  forall extra e',
    readStatus b (mkReader (d ++ extra) e') = Some (res, None).
Proof.
  unfold readStatus. intros H extra e'.
  apply (readScanners_extend extra e' (scanners b) (mkReader d e) (ps b) res H).
Qed.

Lemma readStatus_ignores_what_follows_witness :
  readStatus newProcStatusBuilder
    (mkReader (sampleStatus ++ runes "Pid: oops") (ErrIO "input/output error"))
  = Some (sampleRecord, None).
Proof.
  apply (readStatus_ignores_what_follows newProcStatusBuilder sampleStatus EOF
           sampleRecord).
  vm_compute. reflexivity.
Defined.
